(** * Tile Inventory App: storage layer (js/storage.js) and unit utilities
    (js/utils.js), shallow embedding.

    JS values held by the store are JSON values ([json]): the store only ever
    keeps what [JSON.parse (JSON.stringify _)] produces, so [deepClone] is the
    identity on them.  Numbers are rationals ([Q]); the non-finite numbers of
    JS are not represented (JSON cannot store them), and floating-point
    rounding of [+], [-], [*], [/] is not modelled.  Objects are association
    lists in insertion order.  JS [undefined] is the [None] of an
    [option json].  A string is a sequence of 8-bit characters, each
    standing for the UTF-16 code unit of the same value: the model covers
    the strings whose code units lie in U+0000..U+00FF (ASCII and
    Latin-1), and [trim] and [toLowerCase] are written out on that range. *)

From Stdlib Require Import String Ascii List Bool ZArith QArith Qround Lia.
Import ListNotations.
Open Scope string_scope.
Set Warnings "-register-all".

Inductive json : Type :=
| JNull
| JBool (b : bool)
| JNum (q : Q)
| JStr (s : string)
| JArr (l : list json)
| JObj (fs : list (string * json)).

Module Js.

(** Property lookup in an object's own keys (first occurrence). *)
Fixpoint lookup (k : string) (fs : list (string * json)) : option json :=
  match fs with
  | [] => None
  | (k', v) :: fs' => if String.eqb k k' then Some v else lookup k fs'
  end.

(** [obj[k] = v]: overwrite the key in place, or append it. *)
Fixpoint set_field (k : string) (v : json) (fs : list (string * json))
  : list (string * json) :=
  match fs with
  | [] => [(k, v)]
  | (k', v') :: fs' =>
      if String.eqb k k' then (k', v) :: fs' else (k', v') :: set_field k v fs'
  end.

(** Truthiness ([if (v)], [!v], [v || d]). *)
Definition truthy (v : json) : bool :=
  match v with
  | JNull => false
  | JBool b => b
  | JNum q => negb (Qeq_bool q 0)
  | JStr s => negb (String.eqb s "")
  | JArr _ | JObj _ => true
  end.

Definition otruthy (v : option json) : bool :=
  match v with Some j => truthy j | None => false end.

(** [a || d] *)
Definition or_default (v : option json) (d : json) : json :=
  match v with Some j => if truthy j then j else d | None => d end.

(** [a === b].  Two objects or arrays reached here are always distinct
    references (every read of the store returns a fresh deep copy), so they
    are never strictly equal. *)
Definition strict_eq (a b : option json) : bool :=
  match a, b with
  | None, None => true
  | Some JNull, Some JNull => true
  | Some (JBool x), Some (JBool y) => Bool.eqb x y
  | Some (JNum x), Some (JNum y) => Qeq_bool x y
  | Some (JStr x), Some (JStr y) => String.eqb x y
  | _, _ => false
  end.

Definition is_array (v : option json) : bool :=
  match v with Some (JArr _) => true | _ => false end.

Section ToNumber.
(** [Number(s)] on a string (the StringNumericLiteral grammar) is left
    abstract: [None] stands for [NaN]. *)
Variable StringToNumber : string -> option Q.

(** [Number(v)]; [None] is [NaN].  An array converts through its
    [join(',')] string. *)
Fixpoint to_number (v : json) : option Q :=
  match v with
  | JNull => Some 0
  | JBool b => Some (if b then 1 else 0)
  | JNum q => Some q
  | JStr s => StringToNumber s
  | JObj _ => None
  | JArr [] => Some 0
  | JArr [JNull] => Some 0
  | JArr [JBool _] => None
  | JArr [x] => to_number x
  | JArr _ => None
  end.

(** [Number(v) || 0] *)
Definition num_or0 (v : option json) : Q :=
  match v with
  | Some j => match to_number j with Some q => q | None => 0 end
  | None => 0
  end.

(** [a <= b] / [a >= b] with [b] a number: [NaN] compares false. *)
Definition js_le (a : option json) (b : Q) : bool :=
  match a with
  | Some j => match to_number j with Some x => Qle_bool x b | None => false end
  | None => false
  end.

Definition js_ge (a : option json) (b : Q) : bool :=
  match a with
  | Some j => match to_number j with Some x => Qle_bool b x | None => false end
  | None => false
  end.
End ToNumber.

Definition Qlt_bool (x y : Q) : bool := negb (Qle_bool y x).

(** [toLowerCase] on a code unit of U+0000..U+00FF: the capitals A-Z,
    U+00C0..U+00D6 and U+00D8..U+00DE map to the code unit 32 above; every
    other code unit of the range is its own lower case. *)
Definition lower_ascii (c : ascii) : ascii :=
  let n := nat_of_ascii c in
  if (Nat.leb 65 n && Nat.leb n 90) || (Nat.leb 192 n && Nat.leb n 222 && negb (Nat.eqb n 215))
  then ascii_of_nat (n + 32) else c.

Fixpoint to_lower (s : string) : string :=
  match s with
  | EmptyString => EmptyString
  | String c s' => String (lower_ascii c) (to_lower s')
  end.

(** The code units [trim] removes (WhiteSpace and LineTerminator of
    ECMAScript) that lie in U+0000..U+00FF: tab, LF, VT, FF, CR, space and
    no-break space (U+00A0).  The others (U+FEFF, U+1680, U+2000..U+200A,
    U+2028, U+2029, U+202F, U+205F, U+3000) are above U+00FF. *)
Definition is_ws (c : ascii) : bool :=
  let n := nat_of_ascii c in
  Nat.eqb n 32 || (Nat.leb 9 n && Nat.leb n 13) || Nat.eqb n 160.

Fixpoint trim_left (s : string) : string :=
  match s with
  | String c s' => if is_ws c then trim_left s' else s
  | EmptyString => EmptyString
  end.

Fixpoint rev_str (s : string) (acc : string) : string :=
  match s with
  | EmptyString => acc
  | String c s' => rev_str s' (String c acc)
  end.

Definition trim (s : string) : string :=
  rev_str (trim_left (rev_str (trim_left s) "")) "".

(** [Math.round(x)] = floor(x + 1/2). *)
Definition math_round (x : Q) : Z := Qfloor (x + (1 # 2)).

End Js.

(** ** js/utils.js *)
Module Utils.
Import Js.
Section Utils.
Variable StringToNumber : string -> option Q.

(** [toNumber(v, fallback)]: [Number(v)] if finite, else [fallback]. *)
Definition toNumber (v : option json) (fallback : Q) : Q :=
  match v with
  | Some j => match to_number StringToNumber j with
              | Some q => q
              | None => fallback
              end
  | None => fallback
  end.

(** [normalizeUnitName(unit)]; units are strings or [undefined]. *)
Definition normalizeUnitName (unit : option string) : string :=
  match unit with
  | None => "piece"
  | Some "" => "piece"
  | Some s =>
      let u := to_lower (trim s) in
      if orb (u =? "box") (u =? "boxes") then "box"
      else if (u =? "piece") || (u =? "pieces") || (u =? "pc") || (u =? "pcs")
      then "piece"
      else if (u =? "sft") || (u =? "s.f.t") || (u =? "sqft")
              || (u =? "squarefeet") || (u =? "square feet")
      then "sft"
      else u
  end.

(** [Number.EPSILON] = 2^-52. *)
Definition EPSILON : Q := 1 # (2 ^ 52).

(** [roundTo(v, 3)] on a number. *)
Definition roundTo (v : Q) : Q :=
  Qred (inject_Z (math_round ((v + EPSILON) * 1000)) / 1000).

(** [convertUnits(quantity, fromUnit, toUnit, piecesPerBox = 0,
    sftPerBox = 0)]; the result [None] is [NaN]. *)
Definition convertUnits (quantity : option json) (fromUnit toUnit : option string)
    (piecesPerBox sftPerBox : option json) : option Q :=
  let ppb := match piecesPerBox with None => Some (JNum 0) | x => x end in
  let spb := match sftPerBox with None => Some (JNum 0) | x => x end in
  let q := toNumber quantity 0 in
  let from := normalizeUnitName fromUnit in
  let to := normalizeUnitName toUnit in
  if from =? to then Some (roundTo q) else
  let boxes :=
    if from =? "box" then Some q
    else if from =? "piece" then
      if Qle_bool (toNumber ppb 0) 0 then None else Some (q / toNumber ppb 0)
    else if from =? "sft" then
      if Qle_bool (toNumber spb 0) 0 then None else Some (q / toNumber spb 0)
    else
      if Qle_bool (toNumber ppb 0) 0 then None else Some (q / toNumber ppb 0) in
  match boxes with
  | None => None
  | Some boxes =>
      if to =? "box" then Some (roundTo boxes)
      else if to =? "piece" then
        if Qle_bool (toNumber ppb 0) 0 then None
        else Some (roundTo (boxes * toNumber ppb 0))
      else if to =? "sft" then
        if Qle_bool (toNumber spb 0) 0 then None
        else Some (roundTo (boxes * toNumber spb 0))
      else None
  end.
End Utils.

(** Statement helpers for [convertUnits]: the units the function knows, the
    per-box factor of each unit ([box] is the pivot), and the cases where a
    required factor is not positive or the target unit is unknown. *)
Definition known_unit (u : string) : bool :=
  (u =? "box") || (u =? "piece") || (u =? "sft").

Definition factor_of (u : string) (P S : Q) : Q :=
  if u =? "box" then 1 else if u =? "sft" then S else P.

Definition unavailable (from to : string) (P S : Q) : bool :=
  (negb (from =? "box") && negb (from =? "sft") && Qle_bool P 0)
  || ((from =? "sft") && Qle_bool S 0)
  || ((to =? "piece") && Qle_bool P 0)
  || ((to =? "sft") && Qle_bool S 0)
  || negb (known_unit to).
End Utils.

(** ** js/storage.js *)
Module Store.
Import Js.

(** The value under the key ['tia_db_v1'] of [localStorage]: the empty
    string, a text that is not JSON, or the JSON text of a value (JSON text
    is represented by the value it encodes).  Exported text has the same
    shape. *)
Inductive text : Type :=
| TEmpty
| TInvalid
| TJson (v : json).

(** Module state: the storage slot, [_dbCache], [_watchers] (each watcher
    is a name; the calls it receives are recorded in [log]) and a clock that
    every [Date] read advances.  The storage backend is the default
    [LocalStorageAdapter]; [localStorage.setItem] is modelled as always
    accepting the write. *)
Record St : Type := mkSt {
  ls : option text;
  cache : option json;
  watchers : list nat;
  log : list (nat * json);
  clock : nat
}.

Inductive err : Type :=
| TypeError
| Error (msg : string).

(** JS exceptions do not roll back state: a failed computation keeps the
    state reached when it threw. *)
Definition M (A : Type) : Type := St -> (A + err) * St.

Definition ret {A} (a : A) : M A := fun st => (inl a, st).
Definition throw {A} (e : err) : M A := fun st => (inr e, st).
Definition bind {A B} (m : M A) (k : A -> M B) : M B :=
  fun st => match m st with
            | (inl a, st') => k a st'
            | (inr e, st') => (inr e, st')
            end.
Definition try_catch {A} (m : M A) (h : err -> M A) : M A :=
  fun st => match m st with
            | (inl a, st') => (inl a, st')
            | (inr e, st') => h e st'
            end.
Definition lift {A} (r : A + err) : M A := fun st => (r, st).

Notation "x <- m ;; k" := (bind m (fun x => k))
  (at level 61, m at next level, right associativity).

Definition set_ls (t : text) : M unit :=
  fun st => (inl tt, mkSt (Some t) (cache st) (watchers st) (log st) (clock st)).
Definition get_ls : M (option text) := fun st => (inl (ls st), st).
Definition set_cache (c : option json) : M unit :=
  fun st => (inl tt, mkSt (ls st) c (watchers st) (log st) (clock st)).

Fixpoint digits_aux (fuel n : nat) (acc : string) : string :=
  match fuel with
  | O => acc
  | S f =>
      let acc' := String (ascii_of_nat (48 + n mod 10)) acc in
      if Nat.ltb n 10 then acc' else digits_aux f (n / 10) acc'
  end.
Definition digits (n : nat) : string := digits_aux (S n) n "".

(** [nowISO()]: a timestamp read from the clock. *)
Definition nowISO : M json :=
  fun st => (inl (JStr ("T" ++ digits (clock st))),
             mkSt (ls st) (cache st) (watchers st) (log st) (S (clock st))).

(** [generateId(prefix)]; the random suffix is replaced by the clock. *)
Definition generateId (prefix : string) : M string :=
  fun st => (inl (prefix ++ "_" ++ digits (clock st)),
             mkSt (ls st) (cache st) (watchers st) (log st) (S (clock st))).

(** Property read [v.k] on a non-null value. *)
Definition prop (v : json) (k : string) : option json :=
  match v with JObj fs => lookup k fs | _ => None end.

Definition oprop (v : option json) (k : string) : option json :=
  match v with Some j => prop j k | None => None end.

(** [v.k]: throws on [null] (and on [undefined], see [oget]). *)
Definition get (v : json) (k : string) : M (option json) :=
  match v with JNull => throw TypeError | _ => ret (prop v k) end.

Definition oget (v : option json) (k : string) : M (option json) :=
  match v with Some j => get j k | None => throw TypeError end.

Fixpoint del_field (k : string) (fs : list (string * json)) : list (string * json) :=
  match fs with
  | [] => []
  | (k', v) :: fs' => if String.eqb k k' then fs' else (k', v) :: del_field k fs'
  end.

(** [v.k = x] in sloppy mode: throws on [null], ignored on primitives.
    Assigning [undefined] to an object key is a key that serialization
    drops.  A JSON value has no room for the named own properties JS lets
    a program put on an array, so a write to an array is lost here; in the
    code it lives until [JSON.stringify] drops it.  Where the code reads
    such a property back, the caller writes the JS behaviour out (an array
    product in the reconciliation, [apply_delta]; an array alert is never
    read back).  Two shapes are left outside the model: a document that is
    itself an array (JS [_getCollection] returns the [[]] it just stored on
    it and [save] stamps [toSave.meta] on it, where here [_getCollection]
    gives [undefined] and [save] throws), and a product whose
    [currentStock] is an array (JS reads back the counters written on it,
    here they read as [undefined]). *)
Definition set_prop (v : json) (k : string) (x : option json) : M json :=
  match v with
  | JNull => throw TypeError
  | JObj fs => match x with
               | Some x => ret (JObj (set_field k x fs))
               | None => ret (JObj (del_field k fs))
               end
  | _ => ret v
  end.

(** [o.k1.k2 = x]; the object [o.k1] is shared with [o]. *)
Definition set_in (o : json) (k1 k2 : string) (x : json) : M json :=
  inner <- get o k1 ;;
  match inner with
  | None => throw TypeError
  | Some i => i' <- set_prop i k2 (Some x) ;; set_prop o k1 (Some i')
  end.

Definition DB_VERSION : json := JNum 1.

(** [emptyDB()] *)
Definition emptyDB : M json :=
  c <- nowISO ;; u <- nowISO ;;
  ret (JObj [("meta", JObj [("version", DB_VERSION); ("createdAt", c); ("updatedAt", u)]);
             ("products", JArr []); ("sales", JArr []); ("purchases", JArr []);
             ("alerts", JArr []); ("users", JArr [])]).

(** [LocalStorageAdapter.load()] *)
Definition fresh_db : M json :=
  db <- emptyDB ;; _ <- set_ls (TJson db) ;; ret db.

Definition copy_if_truthy (parsed migrated : json) (k : string) : M json :=
  if otruthy (prop parsed k) then set_prop migrated k (prop parsed k) else ret migrated.

(** [!meta || meta.version !== DB_VERSION] *)
Definition needs_check (meta : option json) : M bool :=
  if otruthy meta
  then (v <- oget meta "version" ;; ret (negb (strict_eq v (Some DB_VERSION))))
  else ret true.

(** Lines 59-65: the lossy migration. *)
Definition migrate (parsed : json) : M json :=
  migrated <- emptyDB ;;
  migrated <- copy_if_truthy parsed migrated "products" ;;
  migrated <- copy_if_truthy parsed migrated "sales" ;;
  migrated <- copy_if_truthy parsed migrated "purchases" ;;
  t <- nowISO ;;
  migrated <- set_in migrated "meta" "updatedAt" t ;;
  _ <- set_ls (TJson migrated) ;;
  ret migrated.

Definition load_parsed (parsed : json) : M json :=
  meta <- get parsed "meta" ;;
  needs <- needs_check meta ;;
  if needs then migrate parsed else ret parsed.

Definition adapter_load : M json :=
  raw <- get_ls ;;
  match raw with
  | None | Some TEmpty => fresh_db
  | Some TInvalid => try_catch (throw (Error "SyntaxError")) (fun _ => fresh_db)
  | Some (TJson parsed) => try_catch (load_parsed parsed) (fun _ => fresh_db)
  end.

(** [LocalStorageAdapter.save(dbObj)] *)
Definition adapter_save (dbObj : json) : M bool :=
  m <- get dbObj "meta" ;;
  toSave <- set_prop dbObj "meta" (Some (or_default m (JObj []))) ;;
  t <- nowISO ;;
  toSave <- set_in toSave "meta" "updatedAt" t ;;
  _ <- set_ls (TJson toSave) ;;
  ret true.

(** [loadDB(force)] *)
Definition loadDB (force : bool) : M json :=
  fun st =>
    match cache st with
    | Some d => if truthy d && negb force then ret d st
                else (d <- adapter_load ;; _ <- set_cache (Some d) ;; ret d) st
    | None => (d <- adapter_load ;; _ <- set_cache (Some d) ;; ret d) st
    end.

(** Every watcher is called, in order, with a copy of the new cache; its
    exceptions are caught. *)
Definition notify (d : json) : M unit :=
  fun st => (inl tt, mkSt (ls st) (cache st) (watchers st)
                          (log st ++ map (fun w => (w, d)) (watchers st)) (clock st)).

(** [saveDB(dbObj)] *)
Definition saveDB (dbObj : json) : M bool :=
  _ <- adapter_save dbObj ;;
  _ <- set_cache (Some dbObj) ;;
  _ <- notify dbObj ;;
  ret true.

(** [_getCollection(name)] *)
Definition getCollection (name : string) : M (option json) :=
  db <- loadDB false ;;
  match db with
  | JNull => throw TypeError
  | JObj _ => if otruthy (prop db name) then ret (prop db name) else ret (Some (JArr []))
  | _ => ret None
  end.

(** [_saveCollection(name, collection)] *)
Definition saveCollection (name : string) (collection : option json) : M bool :=
  db <- loadDB false ;;
  db <- set_prop db name collection ;;
  saveDB db.

(** [Object.assign(target, source)] on plain objects. *)
Definition assign (target source : list (string * json)) : list (string * json) :=
  fold_left (fun acc kv => set_field (fst kv) (snd kv) acc) source target.

(** [Array.prototype.push] / [find] / [forEach] need an array. *)
Definition as_array (v : option json) : M (list json) :=
  match v with Some (JArr l) => ret l | _ => throw TypeError end.

(** ** Products API *)

Definition product_defaults (id : string) (now : json) : list (string * json) :=
  [("id", JStr id); ("name", JStr ""); ("category", JStr ""); ("brand", JStr "");
   ("sku", JStr ""); ("size", JStr ""); ("unitType", JStr "Box");
   ("piecesPerBox", JNum 0); ("sftPerBox", JNum 0); ("costPrice", JNum 0);
   ("sellingPricePerUnit", JNum 0);
   ("currentStock", JObj [("boxes", JNum 0); ("pieces", JNum 0); ("sft", JNum 0)]);
   ("minStock", JNum 0); ("supplierName", JStr ""); ("supplierContact", JStr "");
   ("location", JStr ""); ("imageUrl", JStr ""); ("dateAdded", now); ("notes", JStr "")].

(** [addProduct(productData)] *)
Definition addProduct (productData : list (string * json)) : M json :=
  list <- getCollection "products" ;;
  id <- generateId "prod" ;;
  now <- nowISO ;;
  let product := JObj (assign (product_defaults id now) productData) in
  l <- as_array list ;;
  _ <- saveCollection "products" (Some (JArr (l ++ [product]))) ;;
  ret product.

(** ** Stock adjustment helpers *)

Definition default_stock : json :=
  JObj [("boxes", JNum 0); ("pieces", JNum 0); ("sft", JNum 0)].

(** [products.find(p => p.id === pid)], as an index. *)
Fixpoint find_prod (ps : list json) (pid : option json) (i : nat) : option nat + err :=
  match ps with
  | [] => inl None
  | JNull :: _ => inr TypeError
  | p :: ps' => if strict_eq (prop p "id") pid then inl (Some i)
                else find_prod ps' pid (S i)
  end.

Definition find_product (products : option json) (pid : option json) : option nat + err :=
  match products with
  | Some (JArr ps) => find_prod ps pid 0
  | _ => inr TypeError
  end.

Definition replace_product (products : option json) (i : nat) (p : json) : option json :=
  match products with
  | Some (JArr ps) => Some (JArr (firstn i ps ++ p :: skipn (S i) ps))
  | other => other
  end.

Definition nth_product (products : option json) (i : nat) : json :=
  match products with Some (JArr ps) => nth i ps JNull | _ => JNull end.

(** [products.find(p => p.id === item.productId)] of the reconciliation
    loops: [item.productId] is read by the test, so only once there is an
    element to test. *)
Definition find_item_product (products : option json) (item : json) : M (option nat) :=
  match products with
  | Some (JArr []) => ret None
  | _ => pid <- get item "productId" ;; lift (find_product products pid)
  end.

(** [(item.unitType || '').toLowerCase()] *)
Definition lower_unit (u : option json) : M string :=
  if otruthy u then
    match u with Some (JStr s) => ret (to_lower s) | _ => throw TypeError end
  else ret "".

(** The counter a sale item's unit goes to (lines 359-368). *)
Definition sale_counter (unitType : string) : string :=
  if (unitType =? "box") || (unitType =? "boxes") then "boxes"
  else if (unitType =? "piece") || (unitType =? "pieces") then "pieces"
  else if (unitType =? "sft") || (unitType =? "s.f.t") || (unitType =? "squarefeet")
          || (unitType =? "square feet") then "sft"
  else "pieces".

(** The counter a purchase item's unit goes to (lines 418-426). *)
Definition purchase_counter (unitType : string) : string :=
  if (unitType =? "box") || (unitType =? "boxes") then "boxes"
  else if (unitType =? "piece") || (unitType =? "pieces") then "pieces"
  else if (unitType =? "sft") || (unitType =? "squarefeet")
          || (unitType =? "square feet") then "sft"
  else "pieces".

(** [product.currentStock.k = f(product.currentStock.k)]: the stock object
    is shared with [product]. *)
Definition upd_counter (product : json) (k : string) (f : option json -> Q) : M json :=
  cs <- get product "currentStock" ;;
  match cs with
  | None => throw TypeError
  | Some c => c' <- set_prop c k (Some (JNum (f (prop c k)))) ;;
              set_prop product "currentStock" (Some c')
  end.

(** [find(a => a.productId === pid && !a.resolved)] *)
Fixpoint find_alert (al : list json) (pid : option json) : option json + err :=
  match al with
  | [] => inl None
  | JNull :: _ => inr TypeError
  | a :: al' => if strict_eq (prop a "productId") pid && negb (otruthy (prop a "resolved"))
                then inl (Some a) else find_alert al' pid
  end.

Definition opt_field (k : string) (v : option json) : list (string * json) :=
  match v with Some x => [(k, x)] | None => [] end.

(** The alert pushed at lines 386-394 (keys holding [undefined] are dropped
    when the collection is saved). *)
Definition new_alert (id : string) (product : json) (cs : option json) (min : Q)
    (now : json) : json :=
  JObj ([("id", JStr id)] ++ opt_field "productId" (prop product "id")
        ++ opt_field "productName" (prop product "name")
        ++ opt_field "currentStock" cs
        ++ [("minRequired", JNum min); ("alertDate", now); ("resolved", JBool false)]).

Section Reconcile.
Variable StringToNumber : string -> option Q.

Definition num (v : option json) : Q := num_or0 StringToNumber v.

(** [Math.round((Number(v) || 0) * 1000) / 1000] *)
Definition round3 (v : option json) : Q :=
  Qred (inject_Z (math_round (num v * 1000)) / 1000).

(** Lines 354-373 (sale) / 414-430 (purchase): update the matched counter
    with [op] ([-] for a sale, [+] for a purchase) and [qty], then round the
    three counters. *)
Definition apply_delta (counter : string -> string) (op : Q -> Q -> Q) (item product : json)
    : M json :=
  qv <- get item "quantity" ;;
  let qty := num qv in
  utv <- get item "unitType" ;;
  unitType <- lower_unit utv ;;
  match product with
  | JArr _ =>
      (* [product.currentStock] becomes an own property of the array: the
         counters are written and read there, [product.minStock] is
         undefined so the test that follows fails, and [JSON.stringify]
         drops the property when the products are saved *)
      ret product
  | _ =>
      cs0 <- get product "currentStock" ;;
      product <- set_prop product "currentStock" (Some (or_default cs0 default_stock)) ;;
      product <- upd_counter product (counter unitType) (fun v => op (num v) qty) ;;
      product <- upd_counter product "boxes" round3 ;;
      product <- upd_counter product "pieces" round3 ;;
      upd_counter product "sft" round3
  end.

(** The loop body of [_applyStockChangesFromSale] (lines 348-397). *)
Definition sale_item (products : option json) (item : json) : M (option json) :=
  idx <- find_item_product products item ;;
  match idx with
  | None => ret products
  | Some i =>
      if negb (truthy (nth_product products i)) then ret products else
      product <- apply_delta sale_counter Qminus item (nth_product products i) ;;
      let products := replace_product products i product in
      mn <- get product "minStock" ;;
      let min := num mn in
      let cs := prop product "currentStock" in
      if (js_le StringToNumber (oprop cs "boxes") min && Qlt_bool 0 min)
         || (js_le StringToNumber (oprop cs "pieces") min && Qlt_bool 0 min)
         || (js_le StringToNumber (oprop cs "sft") min && Qlt_bool 0 min)
      then
        alerts <- getCollection "alerts" ;;
        al <- as_array alerts ;;
        existing <- lift (find_alert al (prop product "id")) ;;
        match existing with
        | Some _ => ret products
        | None =>
            id <- generateId "alert" ;;
            now <- nowISO ;;
            _ <- saveCollection "alerts"
                   (Some (JArr (al ++ [new_alert id product cs min now]))) ;;
            ret products
        end
      else ret products
  end.

Fixpoint sale_items (products : option json) (items : list json) : M (option json) :=
  match items with
  | [] => ret products
  | item :: items' => products <- sale_item products item ;; sale_items products items'
  end.

(** [_applyStockChangesFromSale(sale)]; [sale] is an object. *)
Definition applyStockChangesFromSale (sale : json) : M unit :=
  match prop sale "items" with
  | Some (JArr items) =>
      products <- getCollection "products" ;;
      products <- sale_items products items ;;
      _ <- saveCollection "products" products ;;
      ret tt
  | _ => ret tt
  end.

(** [alerts.forEach(...)] of lines 439-445: mark every unresolved alert of
    [pid] resolved; the flag says whether one changed. *)
Fixpoint resolve_alerts (al : list json) (pid : option json) : M (list json * bool) :=
  match al with
  | [] => ret ([], false)
  | JNull :: _ => throw TypeError
  | a :: al' =>
      a' <- (if strict_eq (prop a "productId") pid && negb (otruthy (prop a "resolved"))
             then (a1 <- set_prop a "resolved" (Some (JBool true)) ;;
                   now <- nowISO ;;
                   a2 <- set_prop a1 "resolvedAt" (Some now) ;;
                   ret (a2, true))
             else ret (a, false)) ;;
      rest <- resolve_alerts al' pid ;;
      ret (fst a' :: fst rest, snd a' || snd rest)
  end.

(** The loop body of [_applyStockChangesFromPurchase] (lines 409-447). *)
Definition purchase_item (products : option json) (item : json) : M (option json) :=
  idx <- find_item_product products item ;;
  match idx with
  | None => ret products
  | Some i =>
      if negb (truthy (nth_product products i)) then ret products else
      product <- apply_delta purchase_counter Qplus item (nth_product products i) ;;
      let products := replace_product products i product in
      mn <- get product "minStock" ;;
      let min := num mn in
      let cs := prop product "currentStock" in
      if (js_ge StringToNumber (oprop cs "boxes") min && Qlt_bool 0 min)
         || (js_ge StringToNumber (oprop cs "pieces") min && Qlt_bool 0 min)
         || (js_ge StringToNumber (oprop cs "sft") min && Qlt_bool 0 min)
      then
        alerts <- getCollection "alerts" ;;
        al <- as_array alerts ;;
        r <- resolve_alerts al (prop product "id") ;;
        if snd r then (_ <- saveCollection "alerts" (Some (JArr (fst r))) ;; ret products)
        else ret products
      else ret products
  end.

Fixpoint purchase_items (products : option json) (items : list json) : M (option json) :=
  match items with
  | [] => ret products
  | item :: items' => products <- purchase_item products item ;; purchase_items products items'
  end.

(** [_applyStockChangesFromPurchase(purchase)] *)
Definition applyStockChangesFromPurchase (purchase : json) : M unit :=
  match prop purchase "items" with
  | Some (JArr items) =>
      products <- getCollection "products" ;;
      products <- purchase_items products items ;;
      _ <- saveCollection "products" products ;;
      ret tt
  | _ => ret tt
  end.

(** ** Sales and purchases API *)

Definition sale_defaults (id : string) (now : json) : list (string * json) :=
  [("id", JStr id); ("dateTime", now); ("items", JArr []); ("totalAmount", JNum 0);
   ("customerName", JStr ""); ("customerPhone", JStr ""); ("paymentMethod", JStr "Cash");
   ("paymentStatus", JStr "Paid"); ("notes", JStr "")].

(** Lines 230-245 of [addSale]: build and persist the sale record. *)
Definition addSale_record (saleData : list (string * json)) : M json :=
  list <- getCollection "sales" ;;
  id <- generateId "sale" ;;
  now <- nowISO ;;
  let sale := JObj (assign (sale_defaults id now) saleData) in
  l <- as_array list ;;
  _ <- saveCollection "sales" (Some (JArr (l ++ [sale]))) ;;
  ret sale.

(** [addSale(saleData)] *)
Definition addSale (saleData : list (string * json)) : M json :=
  sale <- addSale_record saleData ;;
  _ <- try_catch (applyStockChangesFromSale sale) (fun _ => ret tt) ;;
  ret sale.

Definition purchase_defaults (id : string) (now : json) : list (string * json) :=
  [("id", JStr id); ("dateTime", now); ("items", JArr []); ("totalCost", JNum 0);
   ("paymentStatus", JStr "Pending"); ("supplierName", JStr ""); ("notes", JStr "")].

(** Lines 273-285 of [addPurchase]. *)
Definition addPurchase_record (purchaseData : list (string * json)) : M json :=
  list <- getCollection "purchases" ;;
  id <- generateId "pur" ;;
  now <- nowISO ;;
  let purchase := JObj (assign (purchase_defaults id now) purchaseData) in
  l <- as_array list ;;
  _ <- saveCollection "purchases" (Some (JArr (l ++ [purchase]))) ;;
  ret purchase.

(** [addPurchase(purchaseData)] *)
Definition addPurchase (purchaseData : list (string * json)) : M json :=
  purchase <- addPurchase_record purchaseData ;;
  _ <- try_catch (applyStockChangesFromPurchase purchase) (fun _ => ret tt) ;;
  ret purchase.
End Reconcile.

(** ** Export / Import *)

(** [exportDB()]: the Blob, object URL and anchor click are browser effects
    with no bearing on the store; the filename is built from the date. *)
Definition exportDB : M (string * text) :=
  db <- loadDB false ;;
  now <- nowISO ;;
  let filename := match now with
                  | JStr t => "tile-inventory-db-" ++ t ++ ".json"
                  | _ => "tile-inventory-db.json"
                  end in
  ret (filename, TJson db).

Definition collection_names : list string :=
  ["products"; "sales"; "purchases"; "alerts"; "users"].

(** [base.k = Array.isArray(parsed.k) ? parsed.k : base.k] *)
Definition take_array (parsed base : json) (k : string) : M json :=
  v <- get parsed k ;;
  if is_array v then set_prop base k v else set_prop base k (prop base k).

(** [mergeArray(targetArr, incomingArr)] *)
Fixpoint merge_items (existingIds : list (option json)) (target incoming : list json)
    : M (list json) :=
  match incoming with
  | [] => ret target
  | JNull :: _ => throw TypeError
  | it :: incoming' =>
      if negb (otruthy (prop it "id")) || existsb (strict_eq (prop it "id")) existingIds
      then merge_items existingIds target incoming'
      else merge_items existingIds (target ++ [it]) incoming'
  end.

Fixpoint ids_of (l : list json) : option (list (option json)) :=
  match l with
  | [] => Some []
  | JNull :: _ => None
  | x :: l' => match ids_of l' with Some r => Some (prop x "id" :: r) | None => None end
  end.

Definition mergeArray (targetArr incomingArr : option json) : M (option json) :=
  match incomingArr with
  | Some (JArr incoming) =>
      match targetArr with
      | Some (JArr target) =>
          match ids_of target with
          | Some ids => r <- merge_items ids target incoming ;; ret (Some (JArr r))
          | None => throw TypeError
          end
      | _ => throw TypeError
      end
  | _ => ret targetArr
  end.

Definition merge_into (parsed db : json) (k : string) : M json :=
  target <- get db k ;;
  incoming <- get parsed k ;;
  r <- mergeArray target incoming ;;
  set_prop db k r.

Fixpoint foldM (f : json -> string -> M json) (acc : json) (ks : list string) : M json :=
  match ks with
  | [] => ret acc
  | k :: ks' => acc <- f acc k ;; foldM f acc ks'
  end.

(** [importDB(jsonString, merge)] *)
Definition importDB (jsonString : text) (merge : bool) : M json :=
  match jsonString with
  | TEmpty => throw (Error "No JSON provided for import")
  | TInvalid => throw (Error "Invalid JSON provided")
  | TJson parsed =>
      if negb merge then
        base <- emptyDB ;;
        base <- foldM (take_array parsed) base collection_names ;;
        m <- get base "meta" ;;
        base <- set_prop base "meta" (Some (or_default m (JObj []))) ;;
        now <- nowISO ;;
        base <- set_in base "meta" "importedAt" now ;;
        _ <- saveDB base ;;
        ret base
      else
        db <- loadDB false ;;
        db <- foldM (merge_into parsed) db collection_names ;;
        _ <- saveDB db ;;
        ret db
  end.

(** ** What [load] produces, written out *)

(** [!parsed.meta || parsed.meta.version !== DB_VERSION] on a non-null
    [parsed]. *)
Definition needs_migration (parsed : json) : bool :=
  let meta := prop parsed "meta" in
  if otruthy meta then negb (strict_eq (oprop meta "version") (Some DB_VERSION))
  else true.

(** [if (parsed.k) migrated.k = parsed.k] on top of [[]]. *)
Definition copied (parsed : json) (k : string) : json :=
  match prop parsed k with
  | Some x => if truthy x then x else JArr []
  | None => JArr []
  end.

Definition ts (n : nat) : json := JStr ("T" ++ digits n).

Definition migrated_doc (parsed : json) (createdAt updatedAt : json) : json :=
  JObj [("meta", JObj [("version", DB_VERSION); ("createdAt", createdAt);
                       ("updatedAt", updatedAt)]);
        ("products", copied parsed "products"); ("sales", copied parsed "sales");
        ("purchases", copied parsed "purchases"); ("alerts", JArr []); ("users", JArr [])].

Definition empty_doc (createdAt updatedAt : json) : json :=
  JObj [("meta", JObj [("version", DB_VERSION); ("createdAt", createdAt);
                       ("updatedAt", updatedAt)]);
        ("products", JArr []); ("sales", JArr []); ("purchases", JArr []);
        ("alerts", JArr []); ("users", JArr [])].

(** ** Views of a document used by the statements *)

(** A collection of the document ([[]] when absent or not an array). *)
Definition coll (name : string) (d : json) : list json :=
  match prop d name with Some (JArr l) => l | _ => [] end.

(** An alert the reconciliation treats as unresolved for [pid]
    ([a.productId === pid && !a.resolved]). *)
Definition unresolved_for (pid : option json) (a : json) : bool :=
  match a with
  | JNull => false
  | _ => strict_eq (prop a "productId") pid && negb (otruthy (prop a "resolved"))
  end.

Definition count_unresolved (pid : option json) (d : json) : nat :=
  length (filter (unresolved_for pid) (coll "alerts" d)).

(** At most one unresolved alert per product id. *)
Definition alerts_inv (d : json) : Prop :=
  forall pid, (count_unresolved pid d <= 1)%nat.

(** The invariant on the cached document and on the stored one. *)
Definition store_inv (st : St) : Prop :=
  match cache st with Some d => alerts_inv d | None => True end /\
  match ls st with Some (TJson d) => alerts_inv d | _ => True end.

(** [currentStock.k] of the first product with id [pid]. *)
Definition stock_of (pid : string) (k : string) (d : json) : option json :=
  match find (fun p => strict_eq (prop p "id") (Some (JStr pid))) (coll "products" d) with
  | Some p => oprop (prop p "currentStock") k
  | None => None
  end.

Definition cached (st : St) : json :=
  match cache st with Some d => d | None => JNull end.


(** How [alerts.forEach] of lines 439-445 leaves alert [a] as [a']: an
    unresolved alert object of [pid] gets [resolved = true] and a
    [resolvedAt] time and keeps its other keys; any other alert is left as
    it was. *)
Definition resolve_rel (pid : option json) (a a' : json) : Prop :=
  match a with
  | JObj _ =>
      if unresolved_for pid a
      then (exists t, prop a' "resolved" = Some (JBool true) /\
                      prop a' "resolvedAt" = Some (JStr t) /\
                      forall k, k <> "resolved" -> k <> "resolvedAt" -> prop a' k = prop a k)
      else a' = a
  | _ => a' = a
  end.

(** What [products.find(p => p.id === pid)] sees of an element. *)
Definition id_view (p : json) : option (option json) :=
  match p with JNull => None | _ => Some (prop p "id") end.

(** The document held in storage ([JNull] when there is none). *)
Definition stored (st : St) : json :=
  match ls st with Some (TJson d) => d | _ => JNull end.




End Store.

(** ** js/storage.js: watchers, lookups, updates, alerts and reset *)
Module StoreApi.
Import Js Store.

Definition get_watchers : M (list nat) := fun st => (inl (watchers st), st).
Definition set_watchers (ws : list nat) : M unit :=
  fun st => (inl tt, mkSt (ls st) (cache st) ws (log st) (clock st)).

(** [onChange(callback)]: a function is a watcher name, [None] is a value
    that is not a function.  The result is the unsubscribe closure, which
    removes every watcher [!== callback] fails for. *)
Definition onChange (callback : option nat) : M (M unit) :=
  _ <- match callback with
       | Some f => ws <- get_watchers ;; set_watchers (ws ++ [f])
       | None => ret tt
       end ;;
  ret (ws <- get_watchers ;;
       set_watchers (filter (fun fn => match callback with
                                       | Some f => negb (Nat.eqb fn f)
                                       | None => true
                                       end) ws)).

(** [list.find(p => p.id === id) || null] *)
Definition find_by_id (l : list json) (id : option json) : json + err :=
  match find_prod l id 0 with
  | inl (Some i) => inl (or_default (Some (nth i l JNull)) JNull)
  | inl None => inl JNull
  | inr e => inr e
  end.

(** [getProductById], [getSaleById], [getPurchaseById]. *)
Definition getById (name : string) (id : option json) : M json :=
  list <- getCollection name ;;
  l <- as_array list ;;
  lift (find_by_id l id).

Definition getProductById := getById "products".
Definition getSaleById := getById "sales".
Definition getPurchaseById := getById "purchases".

(** The own enumerable entries [Object.assign] copies from a source: the
    keys of an object, the indices of an array or string, nothing for a
    number, boolean or [null]. *)
Definition own_entries (v : json) : list (string * json) :=
  match v with
  | JObj fs => fs
  | JArr l => combine (map digits (seq 0 (length l))) l
  | JStr s => combine (map digits (seq 0 (String.length s)))
                      (map (fun c => JStr (String c EmptyString)) (list_ascii_of_string s))
  | _ => []
  end.

(** [updateProduct(productId, updates)]; [updates] is an object. *)
Definition updateProduct (productId : option json) (updates : list (string * json)) : M json :=
  list <- getCollection "products" ;;
  l <- as_array list ;;
  idx <- lift (find_prod l productId 0) ;;
  match idx with
  | None => throw (Error "Product not found")
  | Some i =>
      now <- nowISO ;;
      let p := JObj (assign (assign (assign [] (own_entries (nth i l JNull))) updates)
                            [("dateUpdated", now)]) in
      _ <- saveCollection "products" (Some (JArr (firstn i l ++ p :: skipn (S i) l))) ;;
      ret p
  end.

(** [list.filter(p => p.id !== id)] *)
Fixpoint filter_id (l : list json) (id : option json) : list json + err :=
  match l with
  | [] => inl []
  | JNull :: _ => inr TypeError
  | p :: l' => match filter_id l' id with
               | inl r => inl (if strict_eq (prop p "id") id then r else p :: r)
               | inr e => inr e
               end
  end.

(** [deleteProduct(productId)] *)
Definition deleteProduct (productId : option json) : M bool :=
  list <- getCollection "products" ;;
  l <- as_array list ;;
  idx <- lift (find_prod l productId 0) ;;
  let existing := match idx with Some i => Some (nth i l JNull) | None => None end in
  if negb (otruthy existing) then throw (Error "Product not found") else
  l' <- lift (filter_id l productId) ;;
  _ <- saveCollection "products" (Some (JArr l')) ;;
  ret true.

Definition alert_defaults (id : string) (alertData : list (string * json)) (now : json)
    : list (string * json) :=
  [("id", JStr id);
   ("productId", or_default (lookup "productId" alertData) JNull);
   ("productName", or_default (lookup "productName" alertData) (JStr ""));
   ("currentStock", or_default (lookup "currentStock" alertData) (JNum 0));
   ("minRequired", or_default (lookup "minRequired" alertData) (JNum 0));
   ("alertDate", now); ("resolved", JBool false);
   ("notes", or_default (lookup "notes" alertData) (JStr ""))].

(** [addAlert(alertData)]; [alertData] is an object. *)
Definition addAlert (alertData : list (string * json)) : M json :=
  list <- getCollection "alerts" ;;
  id <- generateId "alert" ;;
  now <- nowISO ;;
  let alert := JObj (assign (alert_defaults id alertData now) alertData) in
  l <- as_array list ;;
  _ <- saveCollection "alerts" (Some (JArr (l ++ [alert]))) ;;
  ret alert.

(** [resolveAlert(alertId)] *)
Definition resolveAlert (alertId : option json) : M json :=
  list <- getCollection "alerts" ;;
  l <- as_array list ;;
  idx <- lift (find_prod l alertId 0) ;;
  match idx with
  | None => throw (Error "Alert not found")
  | Some i =>
      a <- set_prop (nth i l JNull) "resolved" (Some (JBool true)) ;;
      now <- nowISO ;;
      a <- set_prop a "resolvedAt" (Some now) ;;
      _ <- saveCollection "alerts" (Some (JArr (firstn i l ++ a :: skipn (S i) l))) ;;
      ret a
  end.

(** [LocalStorageAdapter.clear()]: [localStorage.removeItem(DB_KEY)]. *)
Definition adapter_clear : M bool :=
  fun st => (inl true, mkSt None (cache st) (watchers st) (log st) (clock st)).

(** [clearDB()] *)
Definition clearDB : M json :=
  _ <- adapter_clear ;;
  _ <- set_cache None ;;
  loadDB true.

(** ** Views used by the statements on the API *)

(** The predicate of [find(p => p.id === id)] and [findIndex] on a non-null
    element. *)
Definition id_match (id : option json) (p : json) : bool := strict_eq (prop p "id") id.

(** An incoming item [mergeArray] appends to [t]: it has a truthy id that no
    element of [t] (as it was before the merge) has. *)
Definition new_by_id (t : list json) (it : json) : bool :=
  otruthy (prop it "id") && negb (existsb (strict_eq (prop it "id")) (map (fun x => prop x "id") t)).

(** A collection [t] after [mergeArray(t, incoming)]. *)
Definition merge_result (t : list json) (incoming : option json) : list json :=
  match incoming with
  | Some (JArr inc) => (t ++ filter (new_by_id t) inc)%list
  | _ => t
  end.

End StoreApi.

(** ** js/utils.js: box counts for a required area *)
Module UtilsMore.
Import Js.
Section UtilsMore.
Variable StringToNumber : string -> option Q.

(** [boxesNeededForSft(requiredSft, sftPerBox)] *)
Definition boxesNeededForSft (requiredSft sftPerBox : option json) : Z :=
  let r := Utils.toNumber StringToNumber requiredSft 0 in
  let s := Utils.toNumber StringToNumber sftPerBox 0 in
  if Qle_bool s 0 then 0%Z else Qceiling (r / s).

(** [roundTo(v, decimals)] on a number. *)
Definition roundToD (v : Q) (decimals : nat) : Q :=
  let p := inject_Z (10 ^ Z.of_nat decimals) in
  Qred (inject_Z (math_round ((v + Utils.EPSILON) * p)) / p).

(** [computeBoxesPiecesSftFromRequiredSft(requiredSft, sftPerBox,
    piecesPerBox)] *)
Definition computeBoxesPiecesSftFromRequiredSft (requiredSft sftPerBox piecesPerBox : option json)
    : json :=
  let r := Utils.toNumber StringToNumber requiredSft 0 in
  let s := Utils.toNumber StringToNumber sftPerBox 0 in
  let p := Utils.toNumber StringToNumber piecesPerBox 0 in
  if Qle_bool s 0 then
    JObj [("boxesNeeded", JNum 0); ("leftoverSft", JNum r); ("equivalentPieces", JNum 0);
          ("boxesRoundedUp", JNum 0)]
  else
    let exactBoxes := r / s in
    let boxesRoundedUp := Qceiling exactBoxes in
    let leftoverSft := Utils.roundTo (inject_Z boxesRoundedUp * s - r) in
    let equivalentPieces := if Qlt_bool 0 p then inject_Z boxesRoundedUp * p else 0 in
    JObj [("boxesNeeded", JNum (roundToD exactBoxes 4));
          ("boxesRoundedUp", JNum (inject_Z boxesRoundedUp));
          ("leftoverSft", JNum leftoverSft); ("equivalentPieces", JNum equivalentPieces)].
End UtilsMore.
End UtilsMore.

(** ** Scenario of the spec (section 8) *)
Module Scenario.
Import Js Store.

Definition product_p1 : json :=
  JObj [("id", JStr "p1"); ("name", JStr "Tile");
        ("currentStock", JObj [("boxes", JNum 5); ("pieces", JNum 0); ("sft", JNum 0)]);
        ("minStock", JNum 2)].

Definition doc0_fields : list (string * json) :=
  [("meta", JObj [("version", JNum 1)]); ("products", JArr [product_p1]);
   ("sales", JArr []); ("purchases", JArr []); ("alerts", JArr []); ("users", JArr [])].

Definition doc0 : json := JObj doc0_fields.

Definition st0 : St := mkSt (Some (TJson doc0)) (Some doc0) [] [] 0.

(** A stored legacy document (no [meta]) whose [products] is an object. *)
Definition doc7 : json := JObj [("products", JObj [("a", JStr "legacy")])].

Definition st7 : St := mkSt (Some (TJson doc7)) None [] [] 0.

(** A document whose [meta.updatedAt] is an old stamp; one watcher. *)
Definition doc9 : json :=
  JObj [("meta", JObj [("version", JNum 1); ("updatedAt", JStr "old")]);
        ("products", JArr [])].

Definition st9 : St := mkSt None None [0%nat] [] 5.

(** p1 down to 1 box, with one unresolved alert for it. *)
Definition product_p1_low : json :=
  JObj [("id", JStr "p1"); ("name", JStr "Tile");
        ("currentStock", JObj [("boxes", JNum 1); ("pieces", JNum 0); ("sft", JNum 0)]);
        ("minStock", JNum 2)].

Definition alert_p1 : json :=
  JObj [("id", JStr "alert_0"); ("productId", JStr "p1"); ("resolved", JBool false)].

Definition doc2_fields : list (string * json) :=
  [("meta", JObj [("version", JNum 1)]); ("products", JArr [product_p1_low]);
   ("sales", JArr []); ("purchases", JArr []); ("alerts", JArr [alert_p1]);
   ("users", JArr [])].

Definition st2 : St := mkSt (Some (TJson (JObj doc2_fields))) (Some (JObj doc2_fields)) [] [] 7.

Definition item_p1 (qty : Q) (unit : json) : json :=
  JObj [("productId", JStr "p1"); ("quantity", JNum qty); ("unitType", unit)].

(** A converter that never parses a number (the fallbacks of the code are used). *)
Definition no_s2n : string -> option Q := fun _ => None.

(** A stored legacy document (no [meta]) with products and an alert. *)
Definition doc6 : json :=
  JObj [("products", JArr [product_p1]); ("alerts", JArr [alert_p1])].

Definition st6 : St := mkSt (Some (TJson doc6)) None [] [] 3.

(** A sale whose single item has a non-string unit: reconciliation throws. *)
Definition sale_bad_unit : list (string * json) :=
  [("items", JArr [item_p1 1 (JNum 5)])].

Definition new_product_data : list (string * json) :=
  [("id", JStr "p2"); ("name", JStr "Marble"); ("minStock", JNum 4)].

(** A sale item whose product does not exist. *)
Definition item_unknown : json :=
  JObj [("productId", JStr "zz"); ("quantity", JNum 1); ("unitType", JStr "box")].

Definition sale_of (qty : Q) (unit : string) : list (string * json) :=
  [("items", JArr [JObj [("productId", JStr "p1"); ("quantity", JNum qty);
                         ("unitType", JStr unit)]])].

(** A product whose id is already taken by [product_p1]. *)
Definition dup_product_data : list (string * json) :=
  [("id", JStr "p1"); ("name", JStr "Dup")].

Definition product_p2 : json := JObj [("id", JStr "p2"); ("name", JStr "Marble")].

(** Two products share the id "p1". *)
Definition doc_dup_fields : list (string * json) :=
  [("meta", JObj [("version", JNum 1)]); ("products", JArr [product_p1; product_p2; product_p1]);
   ("alerts", JArr [])].

Definition st_dup : St :=
  mkSt (Some (TJson (JObj doc_dup_fields))) (Some (JObj doc_dup_fields)) [] [] 0.

(** An alert for p1, added by hand. *)
Definition alert_data_p1 : list (string * json) := [("productId", JStr "p1")].

Definition product_p3 : json := JObj [("id", JStr "p3"); ("name", JStr "Slate")].

(** A document to merge: a product whose id exists, a new product given
    twice, a product with no id, and [sales] that is not an array. *)
Definition import_doc : json :=
  JObj [("products", JArr [JObj [("id", JStr "p1"); ("name", JStr "Other")];
                           product_p3; product_p3; JObj [("name", JStr "NoId")]]);
        ("sales", JStr "none")].

(** Storage was removed while the cache still holds [doc0]. *)
Definition st_lost : St := mkSt None (Some doc0) [] [] 0.

Definition purchase_p1 : list (string * json) := [("items", JArr [item_p1 5 (JStr "box")])].

End Scenario.

(** * Lemmas *)

Module StoreFacts.
Import Js Store.

Lemma lookup_set_field_other : forall k k' v fs,
  k <> k' -> lookup k (set_field k' v fs) = lookup k fs.
Proof.
  intros k k' v fs Hne. induction fs as [|[k0 v0] fs IH]; simpl.
  - apply String.eqb_neq in Hne. rewrite Hne. reflexivity.
  - destruct (String.eqb_spec k' k0) as [->|Hk']; simpl.
    + apply String.eqb_neq in Hne. rewrite Hne. reflexivity.
    + destruct (k =? k0); [reflexivity | exact IH].
Qed.

Lemma lookup_set_field_same : forall k v fs, lookup k (set_field k v fs) = Some v.
Proof.
  intros k v fs. induction fs as [|[k0 v0] fs IH]; simpl.
  - rewrite String.eqb_refl. reflexivity.
  - destruct (String.eqb_spec k k0) as [->|Hk]; simpl.
    + rewrite String.eqb_refl. reflexivity.
    + apply String.eqb_neq in Hk. rewrite Hk. exact IH.
Qed.

Lemma lookup_del_field_other : forall k k' fs,
  k <> k' -> lookup k (del_field k' fs) = lookup k fs.
Proof.
  intros k k' fs Hne. induction fs as [|[k0 v0] fs IH]; simpl; [reflexivity|].
  destruct (String.eqb_spec k' k0) as [->|Hk']; simpl.
  - apply String.eqb_neq in Hne. rewrite Hne. reflexivity.
  - destruct (k =? k0); [reflexivity | exact IH].
Qed.

(** [===] restricted to what the store holds is a partial equivalence. *)
Lemma strict_eq_sym : forall a b, strict_eq a b = strict_eq b a.
Proof.
  intros [[]|] [[]|]; simpl; try reflexivity.
  - destruct b, b0; reflexivity.
  - destruct (Qeq_bool q q0) eqn:E1; destruct (Qeq_bool q0 q) eqn:E2; try reflexivity.
    + apply Qeq_bool_iff in E1. apply Qeq_sym, Qeq_bool_iff in E1. congruence.
    + apply Qeq_bool_iff in E2. apply Qeq_sym, Qeq_bool_iff in E2. congruence.
  - apply String.eqb_sym.
Qed.


(** ** Computations that leave the state alone, or only the clock. *)

Definition pure {A} (m : M A) : Prop := forall st, snd (m st) = st.

Definition frame {A} (m : M A) : Prop :=
  forall st, ls (snd (m st)) = ls st /\ cache (snd (m st)) = cache st
             /\ watchers (snd (m st)) = watchers st.

Lemma pure_frame : forall A (m : M A), pure m -> frame m.
Proof. intros A m H st. rewrite H. auto. Qed.

Lemma pure_ret : forall A (a : A), pure (ret a).
Proof. intros A a st. reflexivity. Qed.

Lemma pure_throw : forall A e, pure (@throw A e).
Proof. intros A e st. reflexivity. Qed.

Lemma pure_lift : forall A (r : A + err), pure (lift r).
Proof. intros A r st. reflexivity. Qed.

Lemma pure_bind : forall A B (m : M A) (k : A -> M B),
  pure m -> (forall a, pure (k a)) -> pure (bind m k).
Proof.
  intros A B m k Hm Hk st. unfold bind. specialize (Hm st).
  destruct (m st) as [[a|e] st'] eqn:E; simpl in *; subst; [apply Hk | reflexivity].
Qed.

Lemma frame_bind : forall A B (m : M A) (k : A -> M B),
  frame m -> (forall a, frame (k a)) -> frame (bind m k).
Proof.
  intros A B m k Hm Hk st. unfold bind. specialize (Hm st).
  destruct (m st) as [[a|e] st'] eqn:E; simpl in *; [|exact Hm].
  destruct Hm as (H1 & H2 & H3). destruct (Hk a st') as (H4 & H5 & H6).
  rewrite H4, H5, H6. auto.
Qed.

Lemma pure_get : forall v k, pure (get v k).
Proof. intros [] k st; reflexivity. Qed.

Lemma pure_oget : forall v k, pure (oget v k).
Proof. intros [[]|] k st; reflexivity. Qed.

Lemma pure_set_prop : forall v k x, pure (set_prop v k x).
Proof. intros [] k [] st; reflexivity. Qed.

Lemma pure_set_in : forall o k1 k2 x, pure (set_in o k1 k2 x).
Proof.
  intros o k1 k2 x. unfold set_in. apply pure_bind; [apply pure_get|].
  intros [i|]; [|apply pure_throw].
  apply pure_bind; [apply pure_set_prop|]. intros. apply pure_set_prop.
Qed.

Lemma pure_as_array : forall v, pure (as_array v).
Proof. intros [[]|] st; reflexivity. Qed.

Lemma pure_lower_unit : forall u, pure (lower_unit u).
Proof. intros u st. unfold lower_unit. destruct (otruthy u); [destruct u as [[]|]|]; reflexivity. Qed.

Lemma pure_upd_counter : forall p k f, pure (upd_counter p k f).
Proof.
  intros p k f. unfold upd_counter. apply pure_bind; [apply pure_get|].
  intros [c|]; [|apply pure_throw].
  apply pure_bind; [apply pure_set_prop|]. intros. apply pure_set_prop.
Qed.

Lemma pure_apply_delta : forall S2N counter op item product,
  pure (apply_delta S2N counter op item product).
Proof.
  intros. unfold apply_delta.
  repeat first [ progress cbv zeta | apply pure_get | apply pure_ret
               | apply pure_lower_unit | apply pure_set_prop
               | apply pure_upd_counter | apply pure_bind
               | match goal with |- pure (match ?x with _ => _ end) => destruct x end
               | match goal with |- forall _ : ?T, _ => match T with St => fail 1 | _ => intro end end ].
Qed.

Lemma pure_find_item_product : forall products item, pure (find_item_product products item).
Proof.
  intros products item. unfold find_item_product.
  destruct products as [[| | | |[|]|]|];
    first [apply pure_ret | apply pure_bind; [apply pure_get | intro; apply pure_lift]].
Qed.

Lemma frame_nowISO : frame nowISO.
Proof. intros st. simpl. auto. Qed.

Lemma frame_generateId : forall p, frame (generateId p).
Proof. intros p st. simpl. auto. Qed.

Lemma frame_notify : forall d, frame (notify d).
Proof. intros d st. simpl. auto. Qed.

Lemma frame_emptyDB : frame emptyDB.
Proof. intros st. simpl. auto. Qed.

Lemma or_default_not_null : forall v d, d <> JNull -> or_default v d <> JNull.
Proof.
  intros [v|] d Hd; simpl; [|exact Hd].
  destruct (truthy v) eqn:E; [|exact Hd].
  intros ->. discriminate.
Qed.

Lemma truthy_not_null : forall v, truthy v = true -> v <> JNull.
Proof. intros v H ->. discriminate. Qed.

(** [LocalStorageAdapter.save]: on success the slot holds the document with
    its [meta] stamped; every other key is the caller's. *)
Lemma adapter_save_spec : forall d st,
  let (r, st') := adapter_save d st in
  cache st' = cache st /\ watchers st' = watchers st /\ log st' = log st /\
  match r with
  | inl _ => exists ts, ls st' = Some (TJson ts) /\
             (forall k, k <> "meta" -> prop ts k = prop d k)
  | inr _ => ls st' = ls st
  end.
Proof.
  intros d st. destruct d as [| | | | |fs]; try (simpl; auto; fail).
  unfold adapter_save, bind, get, set_prop at 1, ret. simpl.
  unfold set_in, bind, get. simpl. rewrite lookup_set_field_same.
  set (m := or_default (lookup "meta" fs) (JObj [])).
  assert (Hm : m <> JNull) by (apply or_default_not_null; discriminate).
  destruct m as [| | | | |mfs] eqn:Em; try (exfalso; apply Hm; reflexivity);
    simpl; (split; [reflexivity|]); (split; [reflexivity|]); (split; [reflexivity|]);
    eexists; (split; [reflexivity|]); intros k Hk; simpl;
    rewrite ?lookup_set_field_other by exact Hk; reflexivity.
Qed.

(** [saveDB(dbObj)]: on success the cache is [dbObj] itself and every
    watcher received it. *)
Lemma saveDB_spec : forall d st,
  let (r, st') := saveDB d st in
  watchers st' = watchers st /\
  match r with
  | inl _ => cache st' = Some d /\
             log st' = (log st ++ map (fun w => (w, d)) (watchers st))%list /\
             exists ts, ls st' = Some (TJson ts) /\
                        (forall k, k <> "meta" -> prop ts k = prop d k)
  | inr _ => ls st' = ls st /\ cache st' = cache st /\ log st' = log st
  end.
Proof.
  intros d st. unfold saveDB, bind at 1. pose proof (adapter_save_spec d st) as H.
  destruct (adapter_save d st) as [[b|e] st1]; destruct H as (H1 & H2 & H3 & H4).
  - simpl. rewrite H2, H3. destruct H4 as (ts & Hts & Hk).
    repeat split; auto. exists ts. split; auto.
  - simpl. auto.
Qed.

Lemma loadDB_cached : forall d st,
  cache st = Some d -> truthy d = true -> loadDB false st = (inl d, st).
Proof. intros d st Hc Ht. unfold loadDB. rewrite Hc, Ht. reflexivity. Qed.

Lemma saveCollection_cached : forall name c fs st,
  cache st = Some (JObj fs) ->
  saveCollection name c st =
  saveDB (match c with Some x => JObj (set_field name x fs)
                       | None => JObj (del_field name fs) end) st.
Proof.
  intros name c fs st Hc. unfold saveCollection, bind at 1.
  rewrite (loadDB_cached (JObj fs)) by (auto). destruct c; reflexivity.
Qed.

Lemma fresh_db_eq : forall st,
  fresh_db st = (inl (empty_doc (ts (clock st)) (ts (S (clock st)))),
                 mkSt (Some (TJson (empty_doc (ts (clock st)) (ts (S (clock st))))))
                      (cache st) (watchers st) (log st) (S (S (clock st)))).
Proof. intros st. reflexivity. Qed.

Lemma load_parsed_null : forall st, load_parsed JNull st = (inr TypeError, st).
Proof. reflexivity. Qed.

Lemma needs_check_eq : forall parsed st,
  parsed <> JNull ->
  needs_check (prop parsed "meta") st = (inl (needs_migration parsed), st).
Proof.
  intros parsed st Hn. unfold needs_check, needs_migration.
  destruct (prop parsed "meta") as [m|]; [|reflexivity].
  destruct m; simpl; try reflexivity. destruct b; reflexivity.
  destruct (Qeq_bool q 0); reflexivity.
  destruct (s =? ""); reflexivity.
Qed.

Lemma migrate_eq : forall parsed st,
  migrate parsed st =
  (inl (migrated_doc parsed (ts (clock st)) (ts (S (S (clock st))))),
   mkSt (Some (TJson (migrated_doc parsed (ts (clock st)) (ts (S (S (clock st)))))))
        (cache st) (watchers st) (log st) (S (S (S (clock st))))).
Proof.
  intros parsed st. unfold migrate, copy_if_truthy, migrated_doc, copied.
  destruct (prop parsed "products") as [x1|]; cbn [otruthy]; [destruct (truthy x1)|];
  destruct (prop parsed "sales") as [x2|]; cbn [otruthy]; try destruct (truthy x2);
  destruct (prop parsed "purchases") as [x3|]; cbn [otruthy]; try destruct (truthy x3);
  reflexivity.
Qed.

Lemma json_eq_null : forall v, {v = JNull} + {v <> JNull}.
Proof. intros []; (left; reflexivity) || (right; discriminate). Qed.

Lemma get_nonnull : forall v k st, v <> JNull -> get v k st = (inl (prop v k), st).
Proof. intros [] k st H; try reflexivity. exfalso; apply H; reflexivity. Qed.

Lemma load_parsed_eq : forall parsed st,
  parsed <> JNull ->
  load_parsed parsed st =
  if needs_migration parsed then migrate parsed st else (inl parsed, st).
Proof.
  intros parsed st Hn. unfold load_parsed, bind at 1. rewrite get_nonnull by exact Hn.
  unfold bind. rewrite needs_check_eq by exact Hn.
  destruct (needs_migration parsed); reflexivity.
Qed.

(** ** The alert invariant through the store primitives *)

Definition pres {A} (m : M A) : Prop :=
  forall st, store_inv st -> store_inv (snd (m st)).

Lemma pres_bind : forall A B (m : M A) (k : A -> M B),
  pres m -> (forall a, pres (k a)) -> pres (bind m k).
Proof.
  intros A B m k Hm Hk st H. unfold bind. specialize (Hm st H).
  destruct (m st) as [[a|e] st'] eqn:E; simpl in *; [apply Hk; exact Hm | exact Hm].
Qed.

Lemma pres_try_catch : forall A (m : M A) h,
  pres m -> (forall e, pres (h e)) -> pres (try_catch m h).
Proof.
  intros A m h Hm Hh st H. unfold try_catch. specialize (Hm st H).
  destruct (m st) as [[a|e] st'] eqn:E; simpl in *; [exact Hm | apply Hh; exact Hm].
Qed.

Lemma pres_frame : forall A (m : M A), frame m -> pres m.
Proof.
  intros A m Hm st H. destruct (Hm st) as (H1 & H2 & _).
  unfold store_inv in *. rewrite H1, H2. exact H.
Qed.

Lemma pres_pure : forall A (m : M A), pure m -> pres m.
Proof. intros A m Hm. apply pres_frame, pure_frame, Hm. Qed.

Lemma alerts_inv_transport : forall d d',
  prop d' "alerts" = prop d "alerts" -> alerts_inv d -> alerts_inv d'.
Proof.
  intros d d' He H pid. unfold count_unresolved, coll in *. rewrite He. apply H.
Qed.

Lemma alerts_inv_nil : forall d, coll "alerts" d = [] -> alerts_inv d.
Proof. intros d H pid. unfold count_unresolved. rewrite H. simpl. lia. Qed.

Lemma adapter_load_inv : forall st,
  store_inv st ->
  let (r, st') := adapter_load st in
  cache st' = cache st /\
  match ls st' with Some (TJson d) => alerts_inv d | _ => True end /\
  (forall d, r = inl d -> alerts_inv d /\ truthy d = true).
Proof.
  intros st [_ Hls]. unfold adapter_load, bind at 1, get_ls.
  destruct (ls st) as [[| |parsed]|] eqn:E.
  - rewrite fresh_db_eq. simpl. split; [reflexivity|].
    split; [apply alerts_inv_nil; reflexivity|]. intros d Hd; inversion Hd; subst.
    split; [apply alerts_inv_nil; reflexivity | reflexivity].
  - unfold try_catch, throw. rewrite fresh_db_eq. simpl. split; [reflexivity|].
    split; [apply alerts_inv_nil; reflexivity|]. intros d Hd; inversion Hd; subst.
    split; [apply alerts_inv_nil; reflexivity | reflexivity].
  - unfold try_catch. destruct (json_eq_null parsed) as [->|Hn].
    + rewrite load_parsed_null, fresh_db_eq. simpl. split; [reflexivity|].
      split; [apply alerts_inv_nil; reflexivity|]. intros d Hd; inversion Hd; subst.
      split; [apply alerts_inv_nil; reflexivity | reflexivity].
    + rewrite load_parsed_eq by exact Hn.
      destruct (needs_migration parsed) eqn:Hm.
      * rewrite migrate_eq. simpl. split; [reflexivity|].
        split; [apply alerts_inv_nil; reflexivity|]. intros d Hd; inversion Hd; subst.
        split; [apply alerts_inv_nil; reflexivity | reflexivity].
      * simpl. rewrite E. split; [reflexivity|]. split; [exact Hls|].
        intros d Hd; inversion Hd; subst. split; [exact Hls|].
        unfold needs_migration in Hm. destruct d; simpl in Hm; try discriminate; reflexivity.
  - rewrite fresh_db_eq. simpl. split; [reflexivity|].
    split; [apply alerts_inv_nil; reflexivity|]. intros d Hd; inversion Hd; subst.
    split; [apply alerts_inv_nil; reflexivity | reflexivity].
Qed.

Lemma loadDB_inv : forall st,
  store_inv st ->
  let (r, st') := loadDB false st in
  store_inv st' /\ (forall d, r = inl d -> cache st' = Some d).
Proof.
  intros st H.
  assert (Hreload : let (r, st') := (d <- adapter_load ;; _ <- set_cache (Some d) ;; ret d) st in
                    store_inv st' /\ (forall d, r = inl d -> cache st' = Some d)).
  { pose proof (adapter_load_inv st H) as HL. unfold bind at 1.
    destruct (adapter_load st) as [[d|e] st1]; destruct HL as (Hc & Hl & Hd).
    - simpl. destruct (Hd d eq_refl) as [Hi _]. split; [split; assumption|].
      intros d' Hd'; inversion Hd'; reflexivity.
    - split; [|discriminate]. destruct H as [Hc0 _]. split; [rewrite Hc; exact Hc0 | exact Hl]. }
  unfold loadDB. destruct (cache st) as [d|] eqn:Hc; [|exact Hreload].
  destruct (truthy d && negb false); [|exact Hreload].
  simpl. split; [exact H|]. intros d' Hd'; inversion Hd'; subst; exact Hc.
Qed.

Lemma pres_loadDB : pres (loadDB false).
Proof.
  intros st H. pose proof (loadDB_inv st H) as HL.
  destruct (loadDB false st) as [r st']. apply HL.
Qed.

Lemma getCollection_inv : forall name st,
  store_inv st ->
  let (r, st') := getCollection name st in
  store_inv st' /\
  (forall l, r = inl (Some (JArr l)) ->
             exists fs, cache st' = Some (JObj fs) /\ coll name (JObj fs) = l).
Proof.
  intros name st H. pose proof (loadDB_inv st H) as HL.
  unfold getCollection, bind at 1.
  destruct (loadDB false st) as [[d|e] st1]; destruct HL as [Hi Hc]; [|split; [exact Hi | discriminate]].
  specialize (Hc d eq_refl).
  destruct d as [| | | | |fs]; try (simpl; split; [exact Hi | discriminate]).
  cbn [prop]. destruct (otruthy (lookup name fs)) eqn:Ht; simpl; (split; [exact Hi|]);
    intros l Hl; exists fs; (split; [exact Hc|]); unfold coll; simpl.
  - inversion Hl as [Hl']. rewrite Hl'. reflexivity.
  - inversion Hl; subst. destruct (lookup name fs) as [[]|]; try reflexivity.
    simpl in Ht. discriminate.
Qed.

Lemma pres_getCollection : forall name, pres (getCollection name).
Proof.
  intros name st H. pose proof (getCollection_inv name st H) as HL.
  destruct (getCollection name st) as [r st']. apply HL.
Qed.

Lemma set_prop_ok : forall d k x d' st st',
  set_prop d k x st = (inl d', st') -> st' = st /\
  forall k', k' <> k -> prop d' k' = prop d k'.
Proof.
  intros d k x d' st st' H. destruct d as [| | | | |fs]; simpl in H;
    try (inversion H; subst; split; reflexivity || (intros; reflexivity)).
  destruct x; inversion H; subst; split; auto; intros k' Hk; simpl.
  - apply lookup_set_field_other; exact Hk.
  - apply lookup_del_field_other; exact Hk.
Qed.

Lemma pres_saveDB : forall d, alerts_inv d -> pres (saveDB d).
Proof.
  intros d Hd st [Hc Hl]. pose proof (saveDB_spec d st) as HS.
  destruct (saveDB d st) as [[b|e] st']; destruct HS as (_ & HS); simpl.
  - destruct HS as (Hc' & _ & t & Ht & Hk). unfold store_inv.
    rewrite Hc', Ht. split; [exact Hd|].
    apply (alerts_inv_transport d); [apply Hk; discriminate | exact Hd].
  - destruct HS as (Hl' & Hc' & _). unfold store_inv. rewrite Hl', Hc'. auto.
Qed.

Lemma pres_saveCollection_other : forall name c,
  name <> "alerts" -> pres (saveCollection name c).
Proof.
  intros name c Hn st H. pose proof (loadDB_inv st H) as HL.
  unfold saveCollection, bind at 1.
  destruct (loadDB false st) as [[d|e] st1]; destruct HL as [Hi Hc]; [|exact Hi].
  specialize (Hc d eq_refl). unfold bind.
  destruct (set_prop d name c st1) as [[d'|e] st2] eqn:Es.
  - apply set_prop_ok in Es. destruct Es as [-> Hk].
    apply pres_saveDB; [|exact Hi].
    apply (alerts_inv_transport d); [apply Hk; intro E; apply Hn; symmetry; exact E|].
    destruct Hi as [Hci _]. rewrite Hc in Hci. exact Hci.
  - pose proof (pure_set_prop d name c st1) as Hp. rewrite Es in Hp. simpl in Hp.
    subst. exact Hi.
Qed.






Lemma saveCollection_alerts_pres : forall fs st l,
  store_inv st -> cache st = Some (JObj fs) ->
  (forall p, (length (filter (unresolved_for p) l) <= 1)%nat) ->
  store_inv (snd (saveCollection "alerts" (Some (JArr l)) st)).
Proof.
  intros fs st l H Hc Hl. rewrite (saveCollection_cached _ _ fs st Hc).
  apply pres_saveDB; [|exact H].
  intro p. unfold count_unresolved, coll. simpl. rewrite lookup_set_field_same. apply Hl.
Qed.







(** ** Export and import *)

Lemma lookup_del_field_none : forall k fs,
  lookup k fs = None -> lookup k (del_field k fs) = None.
Proof.
  intros k fs. induction fs as [|[k0 v0] fs IH]; simpl; [reflexivity|].
  destruct (String.eqb_spec k k0) as [->|Hk]; simpl; [discriminate|].
  apply String.eqb_neq in Hk. rewrite Hk. exact IH.
Qed.

Lemma set_prop_obj : forall fs k v st,
  (v = None -> lookup k fs = None) ->
  exists fs', set_prop (JObj fs) k v st = (inl (JObj fs'), st) /\
  lookup k fs' = v /\ forall k', k' <> k -> lookup k' fs' = lookup k' fs.
Proof.
  intros fs k [v|] st Hv; simpl.
  - eexists. split; [reflexivity|]. split; [apply lookup_set_field_same|].
    intros k' Hk. apply lookup_set_field_other. exact Hk.
  - eexists. split; [reflexivity|]. split; [apply lookup_del_field_none, Hv; reflexivity|].
    intros k' Hk. apply lookup_del_field_other. exact Hk.
Qed.

Lemma take_array_spec : forall parsed fs k st, parsed <> JNull ->
  exists fs', take_array parsed (JObj fs) k st = (inl (JObj fs'), st) /\
  lookup k fs' = (if is_array (prop parsed k) then prop parsed k else lookup k fs) /\
  forall k', k' <> k -> lookup k' fs' = lookup k' fs.
Proof.
  intros parsed fs k st Hn. unfold take_array, bind.
  replace (get parsed k st) with (inl (prop parsed k) : option json + err, st)
    by (destruct parsed; [contradiction Hn; reflexivity | reflexivity ..]).
  destruct (is_array (prop parsed k)) eqn:Ha; apply set_prop_obj; [|auto].
  intro E. rewrite E in Ha. discriminate.
Qed.

Lemma foldM_take_array : forall parsed ks fs st, parsed <> JNull ->
  exists fs', foldM (take_array parsed) (JObj fs) ks st = (inl (JObj fs'), st) /\
  forall k, lookup k fs' =
    if existsb (String.eqb k) ks
    then (if is_array (prop parsed k) then prop parsed k else lookup k fs)
    else lookup k fs.
Proof.
  intros parsed ks. induction ks as [|a ks IH]; intros fs st Hn.
  - exists fs. split; reflexivity.
  - destruct (take_array_spec parsed fs a st Hn) as (fs1 & E1 & Ha & Ho).
    destruct (IH fs1 st Hn) as (fs2 & E2 & Hk).
    exists fs2. split.
    + simpl. unfold bind. rewrite E1. exact E2.
    + intro k. rewrite Hk. simpl.
      destruct (String.eqb_spec k a) as [->|Hne]; simpl.
      * rewrite Ha. destruct (existsb (String.eqb a) ks), (is_array (prop parsed a)); reflexivity.
      * rewrite (Ho k Hne). reflexivity.
Qed.

Lemma emptyDB_eq : forall st,
  exists c u st', emptyDB st = (inl (empty_doc c u), st') /\ cache st' = cache st.
Proof. intros st. do 3 eexists. split; reflexivity. Qed.

Lemma saveDB_obj : forall fs st,
  exists st', saveDB (JObj fs) st = (inl true, st') /\ cache st' = Some (JObj fs).
Proof.
  intros fs st.
  unfold saveDB, adapter_save, bind, get, set_prop at 1, ret. cbn -[digits].
  unfold set_in, bind, get. cbn -[digits].
  rewrite lookup_set_field_same.
  assert (Hm : or_default (lookup "meta" fs) (JObj []) <> JNull)
    by (apply or_default_not_null; discriminate).
  destruct (or_default (lookup "meta" fs) (JObj [])) as [| | | | |mfs];
    try (exfalso; apply Hm; reflexivity);
    cbn -[digits]; eexists; (split; [reflexivity|]); reflexivity.
Qed.

Lemma adapter_load_truthy : forall st d st',
  adapter_load st = (inl d, st') -> truthy d = true.
Proof.
  intros st d st' H. unfold adapter_load, bind at 1, get_ls in H.
  destruct (ls st) as [[| |parsed]|] eqn:E.
  - rewrite fresh_db_eq in H. inversion H. reflexivity.
  - unfold try_catch, throw in H. rewrite fresh_db_eq in H. inversion H. reflexivity.
  - unfold try_catch in H. destruct (json_eq_null parsed) as [->|Hn].
    + rewrite load_parsed_null, fresh_db_eq in H. inversion H. reflexivity.
    + rewrite load_parsed_eq in H by exact Hn.
      destruct (needs_migration parsed) eqn:Hm.
      * rewrite migrate_eq in H. inversion H. reflexivity.
      * inversion H; subst. unfold needs_migration in Hm.
        destruct d; simpl in Hm; try discriminate; reflexivity.
  - rewrite fresh_db_eq in H. inversion H. reflexivity.
Qed.

Lemma loadDB_result : forall st d st',
  loadDB false st = (inl d, st') -> cache st' = Some d /\ truthy d = true.
Proof.
  intros st d st' H. unfold loadDB in H.
  assert (Hre : forall st0, (d0 <- adapter_load ;; _ <- set_cache (Some d0) ;; ret d0) st0 = (inl d, st') ->
                cache st' = Some d /\ truthy d = true).
  { intros st0 H0. unfold bind at 1 in H0.
    destruct (adapter_load st0) as [[d0|e] st1] eqn:El; inversion H0; subst.
    split; [reflexivity | eapply adapter_load_truthy; exact El]. }
  destruct (cache st) as [d0|] eqn:Hc; [|exact (Hre st H)].
  destruct (truthy d0 && negb false) eqn:Ht; [|exact (Hre st H)].
  inversion H; subst. rewrite andb_true_r in Ht. auto.
Qed.

Lemma exportDB_result : forall st fn t st',
  exportDB st = (inl (fn, t), st') ->
  exists db, t = TJson db /\ cache st' = Some db /\ truthy db = true.
Proof.
  intros st fn t st' H. unfold exportDB, bind at 1 in H.
  destruct (loadDB false st) as [[db|e] st1] eqn:El; [|discriminate].
  apply loadDB_result in El. destruct El as [Hc Ht].
  cbn -[digits] in H. inversion H; subst. exists db. auto.
Qed.

(** ** [Object.assign] and collections *)

Lemma lookup_notin : forall k (l : list (string * json)),
  ~ In k (map fst l) -> lookup k l = None.
Proof.
  intros k l. induction l as [|[k0 v0] l IH]; intro Hn; simpl; [reflexivity|].
  destruct (String.eqb_spec k k0) as [->|Hk]; [exfalso; apply Hn; left; reflexivity|].
  apply IH. intro Hi. apply Hn. right. exact Hi.
Qed.

(** With distinct source keys, [Object.assign(target, source)] reads a key
    from [source] when it has it, and from [target] otherwise. *)
Lemma assign_lookup : forall src tgt k,
  NoDup (map fst src) ->
  lookup k (assign tgt src) =
  match lookup k src with Some v => Some v | None => lookup k tgt end.
Proof.
  induction src as [|[k0 v0] src IH]; intros tgt k Hnd; [reflexivity|].
  simpl in Hnd. inversion Hnd as [|? ? Hnin Hnd']; subst.
  unfold assign in *. simpl. rewrite (IH _ k Hnd').
  destruct (String.eqb_spec k k0) as [->|Hk].
  - rewrite (lookup_notin k0 src Hnin). apply lookup_set_field_same.
  - destruct (lookup k src); [reflexivity|]. apply lookup_set_field_other. exact Hk.
Qed.

Lemma getCollection_arr : forall name st l st1,
  getCollection name st = (inl (Some (JArr l)), st1) ->
  exists fs, cache st1 = Some (JObj fs) /\ coll name (JObj fs) = l /\
  (forall dfs, cache st = Some (JObj dfs) -> st1 = st /\ fs = dfs).
Proof.
  intros name st l st1 H. unfold getCollection, bind at 1 in H.
  destruct (loadDB false st) as [[d|e] st0] eqn:El; [|discriminate].
  pose proof (loadDB_result st d st0 El) as [Hc _].
  destruct d as [| | | | |fs]; try discriminate.
  exists fs. cbn [prop] in H.
  assert (Hl : coll name (JObj fs) = l /\ st1 = st0).
  { unfold coll. cbn [prop]. destruct (otruthy (lookup name fs)) eqn:Ht; inversion H; subst.
    - rewrite H1. auto.
    - destruct (lookup name fs) as [[]|]; try (simpl in Ht; discriminate); auto. }
  destruct Hl as [Hl ->]. split; [exact Hc|]. split; [exact Hl|].
  intros dfs Hd. rewrite (loadDB_cached (JObj dfs) st Hd eq_refl) in El.
  inversion El; subst. split; [reflexivity|]. rewrite Hd in Hc. inversion Hc. reflexivity.
Qed.

(** ** Results of successful runs *)

Definition yields {A} (m : M A) (Q : A -> Prop) : Prop :=
  forall st a st', m st = (inl a, st') -> Q a.

Lemma yields_bind : forall A B (m : M A) (k : A -> M B) P Q,
  yields m P -> (forall a, P a -> yields (k a) Q) -> yields (bind m k) Q.
Proof.
  intros A B m k P Q Hm Hk st b st' H. unfold bind in H.
  destruct (m st) as [[a|e] st1] eqn:E; [|discriminate].
  exact (Hk a (Hm st a st1 E) st1 b st' H).
Qed.

Lemma yields_ret : forall A (a : A) (Q : A -> Prop), Q a -> yields (ret a) Q.
Proof. intros A a Q H st b st' E. inversion E; subst. exact H. Qed.

Lemma yields_throw : forall A e (Q : A -> Prop), yields (throw e) Q.
Proof. intros A e Q st b st' E. discriminate. Qed.

Lemma yields_true : forall A (m : M A), yields m (fun _ => True).
Proof. intros A m st a st' _. exact I. Qed.

Lemma yields_lift : forall A (r : A + err), yields (lift r) (fun a => r = inl a).
Proof. intros A [a|e] st b st' E; inversion E; reflexivity. Qed.

Lemma yields_weaken : forall A (m : M A) (P Q : A -> Prop),
  yields m P -> (forall a, P a -> Q a) -> yields m Q.
Proof. intros A m P Q Hm HPQ st a st' E. exact (HPQ a (Hm st a st' E)). Qed.

Lemma set_prop_id_view : forall v k x,
  k <> "id" -> yields (set_prop v k x) (fun v' => id_view v' = id_view v).
Proof.
  intros v k x Hk st v' st' E. destruct v as [| | | | |fs]; simpl in E;
    try (inversion E; reflexivity).
  destruct x; inversion E; subst; simpl; f_equal.
  - apply lookup_set_field_other. intro H; apply Hk; symmetry; exact H.
  - apply lookup_del_field_other. intro H; apply Hk; symmetry; exact H.
Qed.

Lemma upd_counter_id_view : forall p k f,
  yields (upd_counter p k f) (fun p' => id_view p' = id_view p).
Proof.
  intros p k f. unfold upd_counter.
  apply (yields_bind _ _ _ _ (fun _ => True)); [apply yields_true|]. intros [c|] _.
  - apply (yields_bind _ _ _ _ (fun _ => True)); [apply yields_true|]. intros c' _.
    apply set_prop_id_view. discriminate.
  - apply yields_throw.
Qed.

Lemma apply_delta_id_view : forall S2N counter op item product,
  yields (apply_delta S2N counter op item product) (fun p' => id_view p' = id_view product).
Proof.
  intros. unfold apply_delta. cbv zeta.
  do 3 (apply (yields_bind _ _ _ _ (fun _ => True)); [apply yields_true|]; intros ? _).
  destruct product as [| | | |l|fs]; [| | | |apply yields_ret; reflexivity|];
    (apply (yields_bind _ _ _ _ (fun _ => True)); [apply yields_true|]; intros ? _);
    (eapply yields_bind; [apply set_prop_id_view; discriminate|]); intros p1 H1;
    (apply (yields_bind _ _ _ _ _ _ (upd_counter_id_view _ _ _))); intros p2 H2;
    (apply (yields_bind _ _ _ _ _ _ (upd_counter_id_view _ _ _))); intros p3 H3;
    (apply (yields_bind _ _ _ _ _ _ (upd_counter_id_view _ _ _))); intros p4 H4;
    (apply (yields_weaken _ _ _ _ (upd_counter_id_view _ _ _))); intros p5 H5; congruence.
Qed.

Lemma alert_block_ret : forall product cs min (r : option json),
  yields (alerts <- getCollection "alerts" ;;
          al <- as_array alerts ;;
          existing <- lift (find_alert al (prop product "id")) ;;
          match existing with
          | Some _ => ret r
          | None =>
              id <- generateId "alert" ;;
              now <- nowISO ;;
              _ <- saveCollection "alerts"
                     (Some (JArr (al ++ [new_alert id product cs min now]))) ;;
              ret r
          end) (fun x => x = r).
Proof.
  intros. do 3 (apply (yields_bind _ _ _ _ (fun _ => True)); [apply yields_true|]; intros ? _).
  destruct a1.
  - apply yields_ret. reflexivity.
  - do 3 (apply (yields_bind _ _ _ _ (fun _ => True)); [apply yields_true|]; intros ? _).
    apply yields_ret. reflexivity.
Qed.

Lemma find_prod_bound : forall ps pid j i,
  find_prod ps pid j = inl (Some i) -> (j <= i < j + length ps)%nat.
Proof.
  induction ps as [|p ps IH]; intros pid j i H; simpl in H; [discriminate|].
  destruct p; try discriminate;
    (destruct (strict_eq _ pid); [inversion H; simpl; lia|]);
    apply IH in H; simpl; lia.
Qed.

Lemma find_prod_view : forall ps ps' pid j,
  map id_view ps = map id_view ps' -> find_prod ps pid j = find_prod ps' pid j.
Proof.
  induction ps as [|p ps IH]; intros [|p' ps'] pid j H; simpl in H; try discriminate;
    [reflexivity|].
  injection H as Hp Hps. simpl.
  destruct p, p'; simpl in Hp; try discriminate; try reflexivity;
    (match type of Hp with Some ?a = Some ?b => assert (E : a = b) by congruence end);
    cbn [prop]; try rewrite E; rewrite (IH ps' pid (S j) Hps); reflexivity.
Qed.

Lemma map_replace_view : forall ps i p,
  (i < length ps)%nat -> id_view p = id_view (nth i ps JNull) ->
  map id_view (firstn i ps ++ p :: skipn (S i) ps) = map id_view ps.
Proof.
  induction ps as [|q ps IH]; intros [|i] p Hi Hp; simpl in *; try lia.
  - rewrite Hp. reflexivity.
  - f_equal. apply IH; [lia | exact Hp].
Qed.

Lemma find_item_product_bound : forall ps item,
  yields (find_item_product (Some (JArr ps)) item)
    (fun r => forall i, r = Some i -> (i < length ps)%nat).
Proof.
  intros ps item. unfold find_item_product. destruct ps as [|p ps].
  - apply yields_ret. intros i E. discriminate.
  - apply (yields_bind _ _ _ _ (fun _ => True)); [apply yields_true|]. intros pid _.
    apply (yields_weaken _ _ _ _ (yields_lift _ _)). intros r Hr i ->.
    cbn [find_product] in Hr. apply find_prod_bound in Hr. lia.
Qed.



Lemma sale_item_view : forall S2N ps item,
  yields (sale_item S2N (Some (JArr ps)) item)
    (fun r => exists ps', r = Some (JArr ps') /\ map id_view ps' = map id_view ps).
Proof.
  intros S2N ps item. unfold sale_item.
  apply (yields_bind _ _ _ _ _ _ (find_item_product_bound ps item)). intros [i|] Hi;
    [|apply yields_ret; exists ps; split; reflexivity].
  specialize (Hi i eq_refl).
  destruct (negb (truthy (nth_product (Some (JArr ps)) i)));
    [apply yields_ret; exists ps; split; reflexivity|].
  apply (yields_bind _ _ _ _ _ _ (apply_delta_id_view _ _ _ _ _)). intros product Hp.
  cbv zeta.
  assert (Hv : exists ps', replace_product (Some (JArr ps)) i product = Some (JArr ps') /\
                           map id_view ps' = map id_view ps).
  { eexists. split; [reflexivity|]. apply map_replace_view; [lia | exact Hp]. }
  apply (yields_bind _ _ _ _ (fun _ => True)); [apply yields_true|]. intros mn _.
  match goal with |- yields (if ?c then _ else _) _ => destruct c end.
  - apply (yields_weaken _ _ _ _ (alert_block_ret _ _ _ _)). intros x ->. exact Hv.
  - apply yields_ret. exact Hv.
Qed.

Lemma sale_item_unmatched : forall S2N ps m st,
  m <> JNull -> find_prod ps (prop m "productId") 0 = inl None ->
  sale_item S2N (Some (JArr ps)) m st = (inl (Some (JArr ps)), st).
Proof.
  intros S2N ps m st Hn Hf. unfold sale_item, find_item_product.
  destruct ps as [|p ps']; [reflexivity|]. unfold bind. cbv beta.
  replace (get m "productId" st) with (inl (prop m "productId") : option json + err, st)
    by (destruct m; [contradiction Hn; reflexivity | reflexivity ..]).
  cbn [lift find_product]. rewrite Hf. reflexivity.
Qed.

Lemma sale_items_skip : forall S2N m l2 l1 ps st,
  m <> JNull -> find_prod ps (prop m "productId") 0 = inl None ->
  sale_items S2N (Some (JArr ps)) (l1 ++ m :: l2) st =
  sale_items S2N (Some (JArr ps)) (l1 ++ l2) st.
Proof.
  intros S2N m l2 l1. induction l1 as [|a l1 IH]; intros ps st Hn Hf.
  - simpl. unfold bind at 1. rewrite (sale_item_unmatched S2N ps m st Hn Hf). reflexivity.
  - simpl. unfold bind.
    destruct (sale_item S2N (Some (JArr ps)) a st) as [[r|e] st1] eqn:E; [|reflexivity].
    destruct (sale_item_view S2N ps a st r st1 E) as (ps' & -> & Hv).
    fold (bind (sale_item S2N (Some (JArr ps')) m) (fun p => sale_items S2N p l2)).
    apply IH; [exact Hn|]. rewrite (find_prod_view ps' ps _ _ Hv). exact Hf.
Qed.

Lemma getCollection_cached : forall name dfs st,
  cache st = Some (JObj dfs) ->
  getCollection name st =
  (inl (if otruthy (lookup name dfs) then lookup name dfs else Some (JArr [])), st).
Proof.
  intros name dfs st Hc. unfold getCollection, bind at 1.
  rewrite (loadDB_cached (JObj dfs) st Hc eq_refl). cbn [prop].
  destruct (otruthy (lookup name dfs)); reflexivity.
Qed.

(** ** Collections the reconciliation never writes *)

Definition keeps (I : St -> Prop) {A} (m : M A) : Prop :=
  forall st, I st -> I (snd (m st)).

Lemma keeps_bind : forall I A B (m : M A) (k : A -> M B),
  keeps I m -> (forall a, keeps I (k a)) -> keeps I (bind m k).
Proof.
  intros I A B m k Hm Hk st H. unfold bind. specialize (Hm st H).
  destruct (m st) as [[a|e] st'] eqn:E; simpl in *; [apply Hk; exact Hm | exact Hm].
Qed.

Lemma keeps_try_catch : forall I A (m : M A) h,
  keeps I m -> (forall e, keeps I (h e)) -> keeps I (try_catch m h).
Proof.
  intros I A m h Hm Hh st H. unfold try_catch. specialize (Hm st H).
  destruct (m st) as [[a|e] st'] eqn:E; simpl in *; [exact Hm | apply Hh; exact Hm].
Qed.

(** Collection [key] reads [S] in the cached document and in the stored
    one. *)
Definition coll_is (key : string) (S : option json) (st : St) : Prop :=
  (exists fs, cache st = Some (JObj fs) /\ lookup key fs = S) /\
  (exists ts, ls st = Some (TJson ts) /\ prop ts key = S).

Lemma keeps_frame : forall key S A (m : M A), frame m -> keeps (coll_is key S) m.
Proof.
  intros key S A m Hm st H. destruct (Hm st) as (H1 & H2 & _).
  unfold coll_is in *. rewrite H1, H2. exact H.
Qed.

Lemma keeps_pure : forall key S A (m : M A), pure m -> keeps (coll_is key S) m.
Proof. intros. apply keeps_frame, pure_frame. assumption. Qed.

Lemma keeps_getCollection : forall key S name, keeps (coll_is key S) (getCollection name).
Proof.
  intros key S name st H. pose proof H as ((fs & Hc & _) & _).
  rewrite (getCollection_cached name fs st Hc). exact H.
Qed.

Lemma keeps_saveCollection : forall key S name c,
  key <> "meta" -> name <> key -> keeps (coll_is key S) (saveCollection name c).
Proof.
  intros key S name c Hkm Hn st H. pose proof H as ((fs & Hc & Hk) & _).
  rewrite (saveCollection_cached name c fs st Hc).
  set (d := match c with Some x => JObj (set_field name x fs)
                         | None => JObj (del_field name fs) end).
  assert (Hd : prop d key = S).
  { subst d. destruct c; cbn [prop];
    [rewrite lookup_set_field_other | rewrite lookup_del_field_other];
    try exact Hk; intro E; apply Hn; symmetry; exact E. }
  pose proof (saveDB_spec d st) as HS.
  destruct (saveDB d st) as [[b|e] st']; destruct HS as (_ & HS); simpl.
  - destruct HS as (Hc' & _ & ts & Ht & Hts). split.
    + exists (match c with Some x => set_field name x fs | None => del_field name fs end).
      rewrite Hc'. split; [subst d; destruct c; reflexivity|].
      subst d. destruct c; exact Hd.
    + exists ts. split; [exact Ht|]. rewrite (Hts key Hkm). exact Hd.
  - destruct HS as (Hl & Hc' & _). unfold coll_is. rewrite Hl, Hc'. exact H.
Qed.

Lemma frame_resolve_alerts : forall al pid, frame (resolve_alerts al pid).
Proof.
  induction al as [|a al IH]; intro pid; simpl.
  - apply pure_frame, pure_ret.
  - destruct a;
    try (apply pure_frame, pure_throw);
    (apply frame_bind;
     [ match goal with |- frame (if ?c then _ else _) => destruct c end;
       [ apply frame_bind; [apply pure_frame, pure_set_prop | intro];
         apply frame_bind; [apply frame_nowISO | intro];
         apply frame_bind; [apply pure_frame, pure_set_prop | intro];
         apply pure_frame, pure_ret
       | apply pure_frame, pure_ret ]
     | intro; apply frame_bind; [apply IH | intro; apply pure_frame, pure_ret] ]).
Qed.

Section KeepColl.
Variable key : string.
Variable S : option json.
Hypothesis key_meta : key <> "meta".
Hypothesis key_products : "products" <> key.
Hypothesis key_alerts : "alerts" <> key.

Ltac keeps_step :=
  first
    [ apply keeps_getCollection
    | apply keeps_saveCollection; assumption
    | apply keeps_frame; first [ apply frame_generateId | apply frame_nowISO
                               | apply frame_resolve_alerts ]
    | apply keeps_pure; first [ apply pure_get | apply pure_lift | apply pure_ret
                              | apply pure_as_array | apply pure_apply_delta
                              | apply pure_set_prop | apply pure_throw
                              | apply pure_find_item_product ]
    | apply keeps_try_catch
    | apply keeps_bind
    | progress cbv zeta
    | match goal with |- keeps _ (if ?c then _ else _) => destruct c end
    | match goal with |- keeps _ (match ?x with _ => _ end) => destruct x end
    | match goal with |- forall _, _ => intro end ].

Lemma keeps_sale : forall S2N sale,
  keeps (coll_is key S) (applyStockChangesFromSale S2N sale).
Proof.
  intros S2N sale. unfold applyStockChangesFromSale.
  destruct (prop sale "items") as [[]|]; try apply keeps_pure, pure_ret.
  apply keeps_bind; [apply keeps_getCollection | intro products].
  apply keeps_bind; [|intro; repeat keeps_step].
  revert products. induction l as [|it l IH]; intro products; simpl;
    [apply keeps_pure, pure_ret|].
  apply keeps_bind; [|exact IH].
  unfold sale_item. repeat keeps_step.
Qed.

Lemma keeps_purchase : forall S2N purchase,
  keeps (coll_is key S) (applyStockChangesFromPurchase S2N purchase).
Proof.
  intros S2N purchase. unfold applyStockChangesFromPurchase.
  destruct (prop purchase "items") as [[]|]; try apply keeps_pure, pure_ret.
  apply keeps_bind; [apply keeps_getCollection | intro products].
  apply keeps_bind; [|intro; repeat keeps_step].
  revert products. induction l as [|it l IH]; intro products; simpl;
    [apply keeps_pure, pure_ret|].
  apply keeps_bind; [|exact IH].
  unfold purchase_item. repeat keeps_step.
Qed.
End KeepColl.

(** The shared shape of [addProduct], [addSale] and [addPurchase]: read
    the collection, build the record, push it and save the collection. *)
Lemma push_record_spec : forall name prefix
    (defaults : string -> json -> list (string * json)) data st r st1,
  name <> "meta" ->
  (list <- getCollection name ;;
   id <- generateId prefix ;;
   now <- nowISO ;;
   let x := JObj (assign (defaults id now) data) in
   l <- as_array list ;;
   _ <- saveCollection name (Some (JArr (l ++ [x]))) ;;
   ret x) st = (inl r, st1) ->
  exists l, coll_is name (Some (JArr (l ++ [r]))) st1.
Proof.
  intros name prefix defaults data st r st1 Hm H.
  unfold bind at 1 in H.
  destruct (getCollection name st) as [[list|e] st0] eqn:Eg; [|discriminate].
  cbn -[digits saveCollection] in H.
  destruct list as [[| | | |l|]|]; cbn -[digits saveCollection] in H; try discriminate.
  destruct (getCollection_arr name st l st0 Eg) as (fs & Hc & _ & _).
  unfold bind in H.
  match type of H with
  | match saveCollection name (Some (JArr (l ++ [?p]))) ?s with _ => _ end = _ =>
      rewrite (saveCollection_cached name _ fs s Hc) in H;
      pose proof (saveDB_spec (JObj (set_field name (JArr (l ++ [p])) fs)) s) as HS;
      destruct (saveDB (JObj (set_field name (JArr (l ++ [p])) fs)) s)
        as [[b|e] st4]; [|discriminate]
  end.
  cbn [ret] in H. injection H as <- <-. destruct HS as (_ & Hc4 & _ & ts & Ht & Hts).
  exists l. split.
  - eexists. split; [exact Hc4|]. apply lookup_set_field_same.
  - exists ts. split; [exact Ht|]. rewrite (Hts name Hm). cbn [prop].
    apply lookup_set_field_same.
Qed.

(** ** Resolving alerts *)

Lemma resolve_alerts_spec : forall al pid st al' ch st',
  resolve_alerts al pid st = (inl (al', ch), st') ->
  Forall2 (resolve_rel pid) al al' /\ (ch = false -> al' = al).
Proof.
  induction al as [|a al IH]; intros pid st al' ch st' H.
  - cbn in H. inversion H; subst. split; [constructor | reflexivity].
  - cbn [resolve_alerts] in H. destruct a as [| | | | |fs]; [discriminate| | | | |];
    unfold bind at 1 in H;
    (match type of H with context [if ?c then _ else _] => destruct c eqn:Ec end;
     cbn -[digits resolve_alerts] in H; unfold bind in H;
     match type of H with context [resolve_alerts al pid ?s] =>
       destruct (resolve_alerts al pid s) as [[[rest chr]|e] st2] eqn:Er end;
     try discriminate;
     cbn -[digits] in H; injection H as <- <- _;
     destruct (IH pid _ rest chr st2 Er) as [Hf Hch];
     (split; [constructor; [|exact Hf] | cbn [fst snd orb]; intro Hb;
              try discriminate; rewrite Hch by exact Hb; reflexivity])).
  all: cbn [resolve_rel unresolved_for]; try reflexivity; try (rewrite Ec; reflexivity).
  rewrite Ec. exists (String "T" (digits (clock st))). cbn [prop].
  split; [rewrite lookup_set_field_other by discriminate; apply lookup_set_field_same|].
  split; [apply lookup_set_field_same|].
  intros k Hk1 Hk2. rewrite !lookup_set_field_other by assumption. reflexivity.
Qed.

End StoreFacts.

(** * Lemmas on the rest of the storage API *)

Module ApiFacts.
Import Js Store StoreApi StoreFacts.

Lemma saveDB_obj_spec : forall fs st,
  exists st', saveDB (JObj fs) st = (inl true, st') /\ watchers st' = watchers st /\
  log st' = (log st ++ map (fun w => (w, JObj fs)) (watchers st))%list /\
  cache st' = Some (JObj fs).
Proof.
  intros fs st. destruct (saveDB_obj fs st) as (st' & E & Hc).
  pose proof (saveDB_spec (JObj fs) st) as HS. rewrite E in HS.
  destruct HS as (Hw & _ & Hl & _). exists st'. auto.
Qed.

Lemma find_prod_spec : forall l id i, ~ In JNull l ->
  match find_prod l id i with
  | inl (Some j) => (i <= j)%nat /\ (j - i < length l)%nat /\
                    find (id_match id) l = Some (nth (j - i) l JNull)
  | inl None => find (id_match id) l = None
  | inr _ => False
  end.
Proof.
  induction l as [|p l IH]; intros id i Hn; [reflexivity|].
  assert (Hp : p <> JNull) by (intro E; apply Hn; left; rewrite E; reflexivity).
  assert (Hl : ~ In JNull l) by (intro E; apply Hn; right; exact E).
  assert (Hf : find_prod (p :: l) id i =
               if strict_eq (prop p "id") id then inl (Some i) else find_prod l id (S i))
    by (destruct p; [exfalso; apply Hp; reflexivity | reflexivity ..]).
  rewrite Hf. cbn [find]. change (id_match id p) with (strict_eq (prop p "id") id).
  destruct (strict_eq (prop p "id") id).
  - rewrite Nat.sub_diag. simpl. split; [lia|]. split; [lia|reflexivity].
  - specialize (IH id (S i) Hl). destruct (find_prod l id (S i)) as [[j|]|e]; try exact IH.
    destruct IH as (H1 & H2 & H3). replace (j - i)%nat with (S (j - S i)) by lia.
    simpl. split; [lia|]. split; [lia|exact H3].
Qed.

Lemma find_by_id_spec : forall l id, ~ In JNull l ->
  find_by_id l id = inl (match find (id_match id) l with
                         | Some p => if truthy p then p else JNull
                         | None => JNull
                         end).
Proof.
  intros l id Hn. unfold find_by_id. pose proof (find_prod_spec l id 0 Hn) as H.
  destruct (find_prod l id 0) as [[j|]|e]; [|rewrite H; reflexivity|destruct H].
  destruct H as (_ & _ & H). rewrite H, Nat.sub_0_r. reflexivity.
Qed.

Lemma find_app_l : forall A (f : A -> bool) l1 l2,
  find f (l1 ++ l2) = match find f l1 with Some x => Some x | None => find f l2 end.
Proof.
  intros A f l1 l2. induction l1 as [|a l1 IH]; [reflexivity|]. simpl.
  destruct (f a); [reflexivity | exact IH].
Qed.

Lemma push_record_cache : forall name prefix
    (defaults : string -> json -> list (string * json)) data st dfs r st1,
  cache st = Some (JObj dfs) ->
  (list <- getCollection name ;;
   id <- generateId prefix ;;
   now <- nowISO ;;
   let x := JObj (assign (defaults id now) data) in
   l <- as_array list ;;
   _ <- saveCollection name (Some (JArr (l ++ [x]))) ;;
   ret x) st = (inl r, st1) ->
  cache st1 = Some (JObj (set_field name (JArr (coll name (JObj dfs) ++ [r])) dfs)) /\
  watchers st1 = watchers st /\
  exists id now, r = JObj (assign (defaults id now) data).
Proof.
  intros name prefix defaults data st dfs r st1 Hc0 H.
  unfold bind at 1 in H.
  destruct (getCollection name st) as [[list|e] st0] eqn:Eg; [|discriminate].
  cbn -[digits saveCollection] in H.
  destruct list as [[| | | |l|]|]; cbn -[digits saveCollection] in H; try discriminate.
  destruct (getCollection_arr name st l st0 Eg) as (fs & Hc & Hcoll & Hbefore).
  destruct (Hbefore dfs Hc0) as [-> ->].
  unfold bind in H.
  match type of H with
  | match saveCollection name (Some (JArr (l ++ [?p]))) ?s with _ => _ end = _ =>
      rewrite (saveCollection_cached name _ dfs s Hc) in H;
      pose proof (saveDB_spec (JObj (set_field name (JArr (l ++ [p])) dfs)) s) as HS;
      destruct (saveDB (JObj (set_field name (JArr (l ++ [p])) dfs)) s)
        as [[b|e] st4]; [|discriminate]
  end.
  cbn [ret] in H. injection H as <- <-. destruct HS as (Hw & Hc4 & _).
  rewrite Hcoll. split; [exact Hc4|]. split; [exact Hw|]. do 2 eexists. reflexivity.
Qed.

Lemma find_prod_none : forall l id, ~ In JNull l ->
  find (id_match id) l = None -> find_prod l id 0 = inl None.
Proof.
  intros l id Hn Hf. pose proof (find_prod_spec l id 0 Hn) as H.
  destruct (find_prod l id 0) as [[j|]|e]; [|reflexivity|destruct H].
  destruct H as (_ & _ & H). rewrite Hf in H. discriminate.
Qed.

Lemma filter_id_spec : forall l id, ~ In JNull l ->
  filter_id l id = inl (filter (fun p => negb (id_match id p)) l).
Proof.
  induction l as [|p l IH]; intros id Hn; [reflexivity|].
  assert (Hp : p <> JNull) by (intro E; apply Hn; left; rewrite E; reflexivity).
  assert (Hl : ~ In JNull l) by (intro E; apply Hn; right; exact E).
  assert (Hf : filter_id (p :: l) id =
               match filter_id l id with
               | inl r => inl (if id_match id p then r else p :: r)
               | inr e => inr e
               end) by (destruct p; [exfalso; apply Hp; reflexivity | reflexivity ..]).
  rewrite Hf, (IH id Hl). cbn [filter].
  destruct (id_match id p); reflexivity.
Qed.

Lemma saveCollection_obj : forall name l st fs,
  cache st = Some (JObj fs) ->
  exists st', saveCollection name (Some (JArr l)) st = (inl true, st') /\
  cache st' = Some (JObj (set_field name (JArr l) fs)) /\ watchers st' = watchers st.
Proof.
  intros name l st fs Hc. rewrite (saveCollection_cached name _ fs st Hc).
  destruct (saveDB_obj_spec (set_field name (JArr l) fs) st) as (st' & E & Hw & _ & Hc').
  exists st'. auto.
Qed.

Lemma set_prop_some : forall v k x st, v <> JNull ->
  set_prop v k (Some x) st =
  (inl (match v with JObj fs => JObj (set_field k x fs) | _ => v end), st).
Proof. intros [] k x st Hn; try reflexivity. exfalso. apply Hn. reflexivity. Qed.

Lemma find_prod_some : forall l id k j,
  find_prod l id k = inl (Some j) ->
  (k <= j)%nat /\ (j - k < length l)%nat /\ nth (j - k) l JNull <> JNull.
Proof.
  induction l as [|p l IH]; intros id k j H; [discriminate|].
  assert (Hf : p <> JNull /\ find_prod (p :: l) id k =
               if strict_eq (prop p "id") id then inl (Some k) else find_prod l id (S k))
    by (destruct p; [discriminate | split; [discriminate | reflexivity] ..]).
  destruct Hf as [Hp Hf]. rewrite Hf in H.
  destruct (strict_eq (prop p "id") id).
  - injection H as <-. rewrite Nat.sub_diag. simpl. split; [lia|]. split; [lia|exact Hp].
  - destruct (IH id (S k) j H) as (H1 & H2 & H3).
    replace (j - k)%nat with (S (j - S k)) by lia. simpl. split; [lia|]. split; [lia|exact H3].
Qed.

Lemma count_replace : forall (f : json -> bool) l i a,
  (i < length l)%nat -> (f a = true -> f (nth i l JNull) = true) ->
  (length (filter f (firstn i l ++ a :: skipn (S i) l)) <= length (filter f l))%nat.
Proof.
  induction l as [|x l IH]; intros i a Hi Ha; [simpl in Hi; lia|].
  destruct i as [|i].
  - simpl in *. destruct (f a), (f x); simpl; try lia.
    all: specialize (Ha eq_refl); discriminate.
  - simpl in Hi |- *. destruct (f x); simpl; [|apply IH; [lia|exact Ha]].
    apply le_n_S, IH; [lia|exact Ha].
Qed.

Lemma merge_items_spec : forall ids target incoming st,
  ~ In JNull incoming ->
  merge_items ids target incoming st =
  (inl (target ++ filter (fun it => otruthy (prop it "id") && negb (existsb (strict_eq (prop it "id")) ids)) incoming)%list, st).
Proof.
  intros ids target incoming. revert target.
  induction incoming as [|it inc IH]; intros target st Hn.
  - rewrite app_nil_r. reflexivity.
  - assert (Hit : it <> JNull) by (intro E; apply Hn; left; rewrite E; reflexivity).
    assert (Hr : ~ In JNull inc) by (intro Hi; apply Hn; right; exact Hi).
    assert (Hm : merge_items ids target (it :: inc) st =
      (if negb (otruthy (prop it "id")) || existsb (strict_eq (prop it "id")) ids
       then merge_items ids target inc
       else merge_items ids (target ++ [it]) inc) st)
      by (destruct it; [contradiction Hit; reflexivity| reflexivity ..]).
    rewrite Hm. cbn [filter].
    destruct (otruthy (prop it "id")), (existsb (strict_eq (prop it "id")) ids); cbn [negb orb andb];
      rewrite IH by exact Hr; try reflexivity.
    rewrite <- app_assoc. reflexivity.
Qed.

Lemma ids_of_spec : forall l, ~ In JNull l -> ids_of l = Some (map (fun x => prop x "id") l).
Proof.
  induction l as [|x l IH]; intros Hn; [reflexivity|].
  assert (Hx : x <> JNull) by (intro E; apply Hn; left; rewrite E; reflexivity).
  assert (Hr : ~ In JNull l) by (intro Hi; apply Hn; right; exact Hi).
  destruct x; try (contradiction Hx; reflexivity); cbn [ids_of]; rewrite IH by exact Hr; reflexivity.
Qed.

Lemma merge_into_spec : forall parsed fs k t st,
  parsed <> JNull -> lookup k fs = Some (JArr t) -> ~ In JNull t ->
  (forall inc, prop parsed k = Some (JArr inc) -> ~ In JNull inc) ->
  merge_into parsed (JObj fs) k st =
  (inl (JObj (set_field k (JArr (merge_result t (prop parsed k))) fs)), st).
Proof.
  intros parsed fs k t st Hp Hl Ht Hinc.
  assert (Hg0 : get (JObj fs) k st = (inl (lookup k fs), st)) by reflexivity.
  assert (Hg : get parsed k st = (inl (prop parsed k), st))
    by (destruct parsed; [contradiction Hp; reflexivity | reflexivity ..]).
  unfold merge_into, bind at 1. rewrite Hg0, Hl. unfold bind at 1. rewrite Hg. unfold bind, mergeArray, merge_result.
  destruct (prop parsed k) as [[| | | |inc|]|] eqn:Ep; try reflexivity.
  rewrite ids_of_spec by exact Ht. cbv beta iota. unfold bind. rewrite merge_items_spec by (apply Hinc; reflexivity).
  reflexivity.
Qed.

Lemma foldM_merge_into : forall parsed ks fs st,
  parsed <> JNull -> NoDup ks ->
  (forall k, In k ks -> exists t, lookup k fs = Some (JArr t) /\ ~ In JNull t) ->
  (forall k inc, In k ks -> prop parsed k = Some (JArr inc) -> ~ In JNull inc) ->
  exists fs', foldM (merge_into parsed) (JObj fs) ks st = (inl (JObj fs'), st) /\
  forall k, lookup k fs' =
    if existsb (String.eqb k) ks
    then match lookup k fs with
         | Some (JArr t) => Some (JArr (merge_result t (prop parsed k)))
         | o => o end
    else lookup k fs.
Proof.
  intros parsed ks. induction ks as [|a ks IH]; intros fs st Hp Hnd Hc Hi.
  - exists fs. split; reflexivity.
  - inversion Hnd as [|? ? Hna Hnd']; subst.
    destruct (Hc a (or_introl eq_refl)) as (t & Hl & Ht).
    set (fs1 := set_field a (JArr (merge_result t (prop parsed a))) fs).
    assert (Hc1 : forall k, In k ks -> exists t, lookup k fs1 = Some (JArr t) /\ ~ In JNull t).
    { intros k Hk. unfold fs1. rewrite lookup_set_field_other
        by (intro E; subst; contradiction). apply Hc. right. exact Hk. }
    destruct (IH fs1 st Hp Hnd' Hc1 (fun k inc Hk => Hi k inc (or_intror Hk)))
      as (fs2 & E2 & Hk2).
    exists fs2. split.
    + cbn [foldM]. unfold bind at 1.
      rewrite (merge_into_spec parsed fs a t st Hp Hl Ht (fun inc => Hi a inc (or_introl eq_refl))).
      exact E2.
    + intro k. rewrite Hk2. cbn [existsb].
      destruct (String.eqb_spec k a) as [->|Hne]; cbn [orb].
      * assert (Hx : existsb (String.eqb a) ks = false).
        { apply Bool.not_true_iff_false. intro Hx. apply existsb_exists in Hx.
          destruct Hx as (x & Hx & Ex). apply String.eqb_eq in Ex. subst. contradiction. }
        rewrite Hx. unfold fs1. rewrite lookup_set_field_same, Hl. reflexivity.
      * unfold fs1. rewrite lookup_set_field_other by exact Hne. reflexivity.
Qed.

Lemma set_field_twice : forall k v w fs, set_field k w (set_field k v fs) = set_field k w fs.
Proof.
  intros k v w fs. induction fs as [|[k0 v0] fs IH]; simpl.
  - rewrite String.eqb_refl. reflexivity.
  - destruct (k =? k0) eqn:E; simpl; rewrite E; [reflexivity|]. rewrite IH. reflexivity.
Qed.

Lemma resolve_rel_unresolved : forall pid p a a',
  resolve_rel pid a a' -> unresolved_for p a' = true -> unresolved_for p a = true.
Proof.
  intros pid p a a' Hr Hu. unfold resolve_rel in Hr.
  destruct a as [| | | | |fs]; try (subst; exact Hu).
  destruct (unresolved_for pid (JObj fs)); [|subst; exact Hu].
  destruct Hr as (t & Hres & _ & _).
  destruct a'; try discriminate; unfold unresolved_for in Hu; rewrite Hres in Hu;
    rewrite andb_false_r in Hu; discriminate.
Qed.

Lemma filter_forall2_le : forall (R : json -> json -> Prop) (f : json -> bool) l l',
  Forall2 R l l' -> (forall a a', R a a' -> f a' = true -> f a = true) ->
  (length (filter f l') <= length (filter f l))%nat.
Proof.
  intros R f l l' H Hf. induction H as [|a a' l l' Hr H IH]; [reflexivity|].
  cbn [filter]. destruct (f a') eqn:E1.
  - rewrite (Hf a a' Hr E1). cbn [length]. lia.
  - destruct (f a); cbn [length]; lia.
Qed.

Lemma pres_resolve_block : forall pid (products : option json),
  pres (alerts <- getCollection "alerts" ;;
        al <- as_array alerts ;;
        r <- resolve_alerts al pid ;;
        if snd r then (_ <- saveCollection "alerts" (Some (JArr (fst r))) ;; ret products)
        else ret products).
Proof.
  intros pid products st H. unfold bind at 1.
  pose proof (getCollection_inv "alerts" st H) as HG.
  destruct (getCollection "alerts" st) as [[alerts|e] st1]; destruct HG as [Hi Hg]; [|exact Hi].
  destruct alerts as [[| | | |al|]|]; try exact Hi.
  destruct (Hg al eq_refl) as (fs & Hc & Hcoll).
  cbv [bind ret as_array].
  pose proof (resolve_alerts_spec al pid st1) as HR.
  pose proof (frame_resolve_alerts al pid st1) as HF.
  destruct (resolve_alerts al pid st1) as [[[al' ch]|e] st2] eqn:Er;
    cbn [snd fst] in HF |- *; destruct HF as (Hls & Hcs & _).
  - assert (Hi2 : store_inv st2) by (unfold store_inv; rewrite Hls, Hcs; exact Hi).
    destruct ch; [|exact Hi2].
    destruct (HR al' true st2 eq_refl) as [Hf _].
    match goal with |- store_inv (snd (match ?x with _ => _ end)) =>
      assert (HS : store_inv (snd x)); [|destruct x as [[]]; exact HS] end.
    apply (saveCollection_alerts_pres fs); [exact Hi2 | rewrite Hcs; exact Hc|].
    intro p. eapply Nat.le_trans.
    + apply (filter_forall2_le (resolve_rel pid)); [exact Hf|].
      intros a a' Hr. apply (resolve_rel_unresolved pid p a a' Hr).
    + destruct Hi as [Hci _]. rewrite Hc in Hci. specialize (Hci p).
      unfold count_unresolved in Hci. rewrite Hcoll in Hci. exact Hci.
  - unfold store_inv. rewrite Hls, Hcs. exact Hi.
Qed.

Lemma pres_addPurchase_record : forall purchaseData, pres (addPurchase_record purchaseData).
Proof.
  intros purchaseData. unfold addPurchase_record.
  apply pres_bind; [apply pres_getCollection | intro l0].
  apply pres_bind; [apply pres_frame, frame_generateId | intro id].
  apply pres_bind; [apply pres_frame, frame_nowISO | intro now]. cbv zeta.
  apply pres_bind; [apply pres_pure, pure_as_array | intro l].
  apply pres_bind; [apply pres_saveCollection_other; discriminate | intros _].
  apply pres_pure, pure_ret.
Qed.

Section Purchase.
Variable S2N : string -> option Q.

Lemma pres_purchase_item : forall products item, pres (purchase_item S2N products item).
Proof.
  intros products item. unfold purchase_item.
  apply pres_bind; [apply pres_pure, pure_find_item_product | intros [i|]];
    [|apply pres_pure, pure_ret].
  destruct (negb (truthy (nth_product products i))); [apply pres_pure, pure_ret|].
  apply pres_bind; [apply pres_pure, pure_apply_delta | intro product]. cbv zeta.
  apply pres_bind; [apply pres_pure, pure_get | intro mn].
  match goal with |- pres (if ?c then _ else _) => destruct c end;
    [apply pres_resolve_block | apply pres_pure, pure_ret].
Qed.

Lemma pres_purchase_items : forall items products, pres (purchase_items S2N products items).
Proof.
  intros items. induction items as [|it items IH]; intro products; simpl.
  - apply pres_pure, pure_ret.
  - apply pres_bind; [apply pres_purchase_item | exact IH].
Qed.

Lemma pres_applyStockChangesFromPurchase : forall purchase,
  pres (applyStockChangesFromPurchase S2N purchase).
Proof.
  intros purchase. unfold applyStockChangesFromPurchase.
  destruct (prop purchase "items") as [[]|]; try apply pres_pure, pure_ret.
  apply pres_bind; [apply pres_getCollection | intro products].
  apply pres_bind; [apply pres_purchase_items | intro products'].
  apply pres_bind; [apply pres_saveCollection_other; discriminate | intros _].
  apply pres_pure, pure_ret.
Qed.
End Purchase.

(** ** utils.js *)

Lemma Qle_bool_false_lt : forall s, 0 < s -> Qle_bool s 0 = false.
Proof.
  intros s Hs. apply Bool.not_true_iff_false. intro H. apply Qle_bool_iff in H.
  apply (Qlt_not_le _ _ Hs H).
Qed.

Lemma ceiling_cover : forall r s, 0 < s ->
  (inject_Z (Qceiling (r / s)) - 1) * s < r /\ r <= inject_Z (Qceiling (r / s)) * s.
Proof.
  intros r s Hs. split.
  - pose proof (Qceiling_lt (r / s)) as H.
    unfold Z.sub in H. rewrite inject_Z_plus, inject_Z_opp in H.
    change (inject_Z 1) with 1 in H.
    setoid_replace (inject_Z (Qceiling (r / s)) + - (1)) with (inject_Z (Qceiling (r / s)) - 1) in H
      by ring.
    apply (Qmult_lt_r _ _ s Hs) in H.
    setoid_replace (r / s * s) with r in H by (field; intro E; rewrite E in Hs; discriminate).
    exact H.
  - pose proof (Qle_ceiling (r / s)) as H.
    apply (fun H => Qmult_le_compat_r _ _ s H (Qlt_le_weak _ _ Hs)) in H.
    setoid_replace (r / s * s) with r in H by (field; intro E; rewrite E in Hs; discriminate).
    exact H.
Qed.

Lemma roundTo_nonneg : forall x, 0 <= x -> 0 <= Utils.roundTo x.
Proof.
  intros x Hx. unfold Utils.roundTo, math_round. rewrite Qred_correct.
  assert (Hz : (0 <= Qfloor ((x + Utils.EPSILON) * 1000 + (1 # 2)))%Z).
  { change 0%Z with (Qfloor 0). apply Qfloor_resp_le.
    unfold Utils.EPSILON.
    apply Qle_trans with ((0 + 0) * 1000 + 0); [discriminate|].
    apply Qplus_le_compat; [|discriminate].
    apply Qmult_le_compat_r; [|discriminate].
    apply Qplus_le_compat; [exact Hx | discriminate]. }
  apply Qle_shift_div_l; [reflexivity|].
  rewrite Qmult_0_l. change 0 with (inject_Z 0). rewrite <- Zle_Qle. exact Hz.
Qed.

Lemma Qfloor_shift : forall z c, 0 <= c -> c < 1 -> Qfloor (inject_Z z + c) = z.
Proof.
  intros z c H0 H1.
  assert (Ha : (z <= Qfloor (inject_Z z + c))%Z).
  { rewrite <- (Qfloor_Z z) at 1. apply Qfloor_resp_le.
    rewrite <- (Qplus_0_r (inject_Z z)) at 1. apply Qplus_le_compat; [apply Qle_refl | exact H0]. }
  assert (Hb : (Qfloor (inject_Z z + c) < z + 1)%Z).
  { rewrite Zlt_Qlt. apply Qle_lt_trans with (inject_Z z + c); [apply Qfloor_le|].
    rewrite inject_Z_plus. apply Qplus_lt_r. exact H1. }
  lia.
Qed.

Lemma trim_left_ws : forall s, forallb is_ws (list_ascii_of_string s) = true -> trim_left s = "".
Proof.
  induction s as [|c s IH]; intros H; [reflexivity|].
  cbn [list_ascii_of_string forallb] in H. apply andb_prop in H. destruct H as [Hc Hs].
  cbn [trim_left]. rewrite Hc. apply IH. exact Hs.
Qed.

End ApiFacts.

(** ** One box sale, run from a loaded store *)

Module SaleRun.
Import Js Store StoreFacts ApiFacts.






















End SaleRun.

Lemma roundTo_Qeq : forall x y, x == y -> Utils.roundTo x = Utils.roundTo y.
Proof.
  intros x y H. unfold Utils.roundTo, Js.math_round.
  apply Qred_complete.
  rewrite H. reflexivity.
Qed.

Lemma toNumber_default0 : forall S2N v,
  Utils.toNumber S2N (match v with None => Some (JNum 0) | x => x end) 0
  = Utils.toNumber S2N v 0.
Proof. intros S2N [v|]; reflexivity. Qed.

Ltac unit_cases u :=
  let E := fresh "E" in
  destruct (String.eqb_spec u "box") as [E|?];
  [subst u | destruct (String.eqb_spec u "piece") as [E|?];
  [subst u | destruct (String.eqb_spec u "sft") as [E|?];
  [subst u | ] ] ].

Ltac rw_neq :=
  repeat match goal with
  | H : ?u <> ?c |- context [String.eqb ?u ?c] =>
      rewrite (proj2 (String.eqb_neq u c) H)
  | H : ?u <> ?c |- context [String.eqb ?c ?u] =>
      rewrite (proj2 (String.eqb_neq c u) (not_eq_sym H))
  end.

(** C8 (corrected): [convertUnits] is a total function returning [NaN] or a
    number.  The two examples of the spec hold.  When both units normalize to
    the same unit the quantity is only rounded, whatever the factors.
    Otherwise the result is [NaN] exactly when the source unit is [piece] or
    unrecognized and [piecesPerBox <= 0], or the source is [sft] and
    [sftPerBox <= 0], or the target is [piece] and [piecesPerBox <= 0], or
    the target is [sft] and [sftPerBox <= 0], or the target is unrecognized
    (a missing factor counts as 0); in every other case it is the quantity
    converted through boxes and rounded to 3 decimals. *)
Theorem convertUnits_characterisation : forall S2N,
  Utils.convertUnits S2N (Some (JNum 10)) (Some "box") (Some "sft")
    (Some (JNum 0)) (Some (JNum 50)) = Some 500 /\
  Utils.convertUnits S2N (Some (JNum 10)) (Some "piece") (Some "box")
    (Some (JNum 0)) (Some (JNum 50)) = None /\
  forall quantity fromUnit toUnit piecesPerBox sftPerBox,
    let q := Utils.toNumber S2N quantity 0 in
    let P := Utils.toNumber S2N piecesPerBox 0 in
    let S := Utils.toNumber S2N sftPerBox 0 in
    let from := Utils.normalizeUnitName fromUnit in
    let to := Utils.normalizeUnitName toUnit in
    Utils.convertUnits S2N quantity fromUnit toUnit piecesPerBox sftPerBox =
      if from =? to then Some (Utils.roundTo q)
      else if Utils.unavailable from to P S then None
      else Some (Utils.roundTo (q / Utils.factor_of from P S * Utils.factor_of to P S)).
Proof.
  intros S2N. split; [vm_compute; reflexivity|]. split; [vm_compute; reflexivity|].
  intros quantity fromUnit toUnit ppb spb q P S from to.
  unfold Utils.convertUnits. rewrite !toNumber_default0.
  fold q P S from to.
  unfold Utils.unavailable, Utils.known_unit, Utils.factor_of.
  clearbody q P S from to.
  unit_cases from; unit_cases to; simpl; rw_neq; simpl;
  try (destruct (from =? to) eqn:Eft; simpl);
  destruct (Qle_bool P 0) eqn:HP; destruct (Qle_bool S 0) eqn:HS; simpl;
  try reflexivity;
  f_equal; apply roundTo_Qeq.
  all: unfold Qdiv; first [ring | change (/ 1) with 1; ring].
Qed.

(** C8 counterexample: with both factors zero a piece-to-piece call
    returns 5 rather than the sentinel; a negative [piecesPerBox] (neither
    zero nor missing) gives the sentinel; and an unknown target unit gives
    the sentinel although both factors are positive (all arguments are
    numbers, so the string parser plays no part). *)
Lemma convertUnits_counterexample :
  Utils.convertUnits (fun _ => None) (Some (JNum 5)) (Some "piece") (Some "piece")
    (Some (JNum 0)) (Some (JNum 0)) = Some 5 /\
  Utils.convertUnits (fun _ => None) (Some (JNum 10)) (Some "piece") (Some "box")
    (Some (JNum (-2))) (Some (JNum 50)) = None /\
  Utils.convertUnits (fun _ => None) (Some (JNum 10)) (Some "box") (Some "crate")
    (Some (JNum 10)) (Some (JNum 10)) = None.
Proof. vm_compute. repeat split; reflexivity. Qed.


Module Claims.
Import Js Store StoreFacts SaleRun.

(** C6: when [load] reads a stored document whose [meta] is missing or
    whose [meta.version] differs from [DB_VERSION], it returns and persists
    a fresh empty document into which [products], [sales] and [purchases]
    are copied when present; [alerts] and [users] come back empty. *)
Theorem load_migration_lossy : forall st parsed,
  ls st = Some (TJson parsed) ->
  (prop parsed "meta" = None \/
   exists m, prop parsed "meta" = Some m /\ truthy m = true /\
             strict_eq (prop m "version") (Some DB_VERSION) = false) ->
  exists m st',
    adapter_load st = (inl m, st') /\ ls st' = Some (TJson m) /\
    (exists c u, m = migrated_doc parsed c u) /\
    oprop (prop m "meta") "version" = Some DB_VERSION /\
    prop m "alerts" = Some (JArr []) /\ prop m "users" = Some (JArr []) /\
    (forall k, In k ["products"; "sales"; "purchases"] ->
       (forall l, prop parsed k = Some (JArr l) -> prop m k = Some (JArr l)) /\
       (prop parsed k = None -> prop m k = Some (JArr []))).
Proof.
  intros st parsed Hls Hmeta.
  assert (Hcopy : forall c u k, In k ["products"; "sales"; "purchases"] ->
    (forall l, prop parsed k = Some (JArr l) -> prop (migrated_doc parsed c u) k = Some (JArr l)) /\
    (prop parsed k = None -> prop (migrated_doc parsed c u) k = Some (JArr []))).
  { intros c u k Hk. simpl in Hk.
    destruct Hk as [<-|[<-|[<-|[]]]]; simpl; unfold copied;
      split; [intros l ->; reflexivity | intros ->; reflexivity | intros l ->; reflexivity
             | intros ->; reflexivity | intros l ->; reflexivity | intros ->; reflexivity]. }
  unfold adapter_load, bind at 1, get_ls. rewrite Hls.
  destruct (json_eq_null parsed) as [->|Hn].
  - cbn -[fresh_db]. rewrite fresh_db_eq.
    do 2 eexists. split; [reflexivity|]. split; [reflexivity|].
    split; [exists (ts (clock st)), (ts (S (clock st))); reflexivity|].
    split; [reflexivity|]. split; [reflexivity|]. split; [reflexivity|].
    intros k Hk. exact (Hcopy (ts (clock st)) (ts (S (clock st))) k Hk).
  - assert (Hneeds : needs_migration parsed = true).
    { unfold needs_migration. destruct Hmeta as [->|(m & -> & Ht & Hv)]; [reflexivity|].
      simpl. rewrite Ht. change (oprop (Some m) "version") with (prop m "version").
      rewrite Hv. reflexivity. }
    unfold try_catch. rewrite load_parsed_eq, Hneeds, migrate_eq by exact Hn.
    do 2 eexists. split; [reflexivity|]. split; [reflexivity|].
    split; [eexists; eexists; reflexivity|].
    split; [reflexivity|]. split; [reflexivity|]. split; [reflexivity|].
    intros k Hk. apply Hcopy. exact Hk.
Qed.


(** C9 (amended): a successful [saveDB(doc)] returns [true], leaves
    exactly [doc] (as passed, with its old [meta.updatedAt]) in the cache,
    hands [doc] itself to every watcher, and makes [loadDB()] without force
    return [doc]; only the copy written to storage is stamped: it agrees
    with [doc] off [meta], and when [doc.meta] is an object the stored
    [meta] is that object with [updatedAt] set to the current time. *)
Theorem saveDB_cache_unstamped : forall d st b st',
  saveDB d st = (inl b, st') ->
  b = true /\ cache st' = Some d /\
  log st' = (log st ++ map (fun w => (w, d)) (watchers st))%list /\
  loadDB false st' = (inl d, st') /\
  (forall k, k <> "meta" -> prop (stored st') k = prop d k) /\
  (forall mfs, prop d "meta" = Some (JObj mfs) ->
     prop (stored st') "meta" =
     Some (JObj (set_field "updatedAt" (JStr ("T" ++ digits (clock st))) mfs))).
Proof.
  intros d st b st' H.
  pose proof (saveDB_spec d st) as HS. rewrite H in HS.
  destruct HS as (_ & Hc & Hl & ts & Hts & Hk).
  destruct d as [| | | | |fs];
    try (unfold saveDB, adapter_save, set_in, bind, get, set_prop, throw, ret, nowISO in H;
         cbn -[digits] in H; discriminate).
  unfold saveDB, adapter_save, bind, get, set_prop at 1, ret in H. cbn -[digits] in H.
  unfold set_in, bind, get in H. cbn -[digits] in H. rewrite lookup_set_field_same in H.
  split; [|split; [exact Hc|split; [exact Hl|split]]].
  - destruct (or_default (lookup "meta" fs) (JObj [])) as [| | | | |mfs];
      cbn -[digits] in H; try discriminate; inversion H; reflexivity.
  - apply loadDB_cached; [exact Hc | reflexivity].
  - unfold stored. rewrite Hts. split; [exact Hk|].
    intros mfs Hm. cbn -[digits] in Hm. rewrite Hm in H. cbn -[digits] in H.
    injection H as _ Hst. rewrite <- Hst in Hts. cbn -[digits] in Hts.
    injection Hts as <-. cbn [prop]. rewrite lookup_set_field_same. reflexivity.
Qed.

(** C9 counterexample: saving [doc9] at clock 5 stamps the stored copy
    with "T5", but the cache, the watcher's copy and the next [loadDB()]
    keep the old [updatedAt]. *)
Lemma saveDB_stamp_counterexample :
  let (r, st') := saveDB Scenario.doc9 Scenario.st9 in
  r = inl true /\
  oprop (prop (stored st') "meta") "updatedAt" = Some (JStr "T5") /\
  oprop (prop (cached st') "meta") "updatedAt" = Some (JStr "old") /\
  log st' = [(0%nat, Scenario.doc9)] /\
  fst (loadDB false st') = inl Scenario.doc9 /\
  oprop (prop Scenario.doc9 "meta") "updatedAt" = Some (JStr "old").
Proof. vm_compute. repeat split; reflexivity. Qed.

(** C7 (amended): [exportDB()] followed by [importDB] of the exported
    text with [merge = false] succeeds and yields a document, also left in
    the cache, whose collection [k] (products, sales, purchases, alerts and
    users) is the exported document's [k] when that is an array, and an
    empty array otherwise; so the round trip reproduces exactly the
    collections that are arrays. *)
Theorem export_import_collections : forall st fn t st1,
  exportDB st = (inl (fn, t), st1) ->
  exists db d st2,
    t = TJson db /\ cache st1 = Some db /\
    importDB t false st1 = (inl d, st2) /\ cache st2 = Some d /\
    forall k, In k collection_names ->
      prop d k = if is_array (prop db k) then prop db k else Some (JArr []).
Proof.
  intros st fn t st1 H.
  destruct (exportDB_result st fn t st1 H) as (db & -> & Hc & Ht).
  assert (Hn : db <> JNull) by (intro E; subst; discriminate).
  unfold importDB. cbn [negb]. unfold bind at 1.
  destruct (emptyDB_eq st1) as (c & u & st2 & Ee & _). rewrite Ee. cbv beta iota.
  unfold empty_doc. exists db.
  match goal with |- context [foldM (take_array db) (JObj ?fs0) collection_names] =>
    destruct (foldM_take_array db collection_names fs0 st2 Hn) as (fs1 & Ef & Hk) end.
  unfold bind at 1. rewrite Ef. cbv beta iota.
  pose proof (Hk "meta") as Hm. cbn in Hm.
  unfold bind at 1. cbn [get ret prop]. rewrite Hm. cbv beta iota. cbn [or_default truthy].
  unfold bind at 1. cbn [set_prop ret].
  unfold bind at 1. cbn [nowISO].
  unfold bind at 1. unfold set_in, bind at 1. cbn [get ret prop].
  rewrite lookup_set_field_same. cbn [set_prop ret]. cbv [bind ret].
  match goal with |- context [saveDB (JObj ?fs2) ?s] =>
    destruct (saveDB_obj fs2 s) as (st3 & Es & Hc3); rewrite Es end. do 2 eexists. split; [reflexivity|]. split; [exact Hc|].
  split; [reflexivity|]. split; [exact Hc3|].
  intros k Hin. cbn [prop].
  assert (Hkm : k <> "meta") by (intro E; subst; simpl in Hin; intuition discriminate).
  rewrite !lookup_set_field_other by exact Hkm. rewrite Hk.
  simpl in Hin. destruct Hin as [<-|[<-|[<-|[<-|[<-|[]]]]]]; reflexivity.
Qed.

(** C7 counterexample: loading the legacy [doc7] migrates it with its
    [products] object kept; exporting that state and importing the export
    with [merge = false] gives an empty products array instead. *)
Lemma export_import_counterexample :
  match exportDB Scenario.st7 with
  | (inl (_, t), st1) =>
      cache st1 <> None /\
      oprop (cache st1) "products" = Some (JObj [("a", JStr "legacy")]) /\
      match importDB t false st1 with
      | (inl d, _) => prop d "products" = Some (JArr [])
      | _ => False
      end
  | _ => False
  end.
Proof. vm_compute. split; [discriminate|]. split; reflexivity. Qed.

(** C10: when [addProduct(productData)] succeeds (with the keys of
    [productData] distinct, as in a JS object), every key of [productData],
    [id] and [dateAdded] included, overrides the default, the other keys
    keep the defaults built from the generated id and the current time, and
    the stored products collection is the one read before with the new
    product appended; nothing checks the id against the stored products. *)
Theorem addProduct_overrides : forall productData st product st',
  NoDup (map fst productData) ->
  addProduct productData st = (inl product, st') ->
  (exists id now, forall k,
     prop product k = match lookup k productData with
                      | Some v => Some v
                      | None => lookup k (product_defaults id now)
                      end) /\
  exists l fs,
    cache st' = Some (JObj fs) /\ coll "products" (JObj fs) = (l ++ [product])%list /\
    (forall dfs, cache st = Some (JObj dfs) -> l = coll "products" (JObj dfs)).
Proof.
  intros productData st product st' Hnd H.
  unfold addProduct, bind at 1 in H.
  destruct (getCollection "products" st) as [[list|e] st1] eqn:Eg; [|discriminate].
  cbn -[digits saveCollection] in H.
  destruct list as [[| | | |l|]|]; cbn -[digits saveCollection] in H; try discriminate.
  destruct (getCollection_arr "products" st l st1 Eg) as (fs & Hc & Hcoll & Hbefore).
  unfold bind in H.
  match type of H with
  | match saveCollection "products" (Some (JArr (l ++ [?p]))) ?s with _ => _ end = _ =>
      rewrite (saveCollection_cached "products" _ fs s Hc) in H;
      pose proof (saveDB_spec (JObj (set_field "products" (JArr (l ++ [p])) fs)) s) as HS;
      destruct (saveDB (JObj (set_field "products" (JArr (l ++ [p])) fs)) s)
        as [[b|e] st4]; [|discriminate]
  end.
  cbn [ret] in H. injection H as <- <-. destruct HS as (_ & Hc4 & _).
  split.
  - do 2 eexists. intro k. cbn [prop]. apply assign_lookup. exact Hnd.
  - exists l. eexists. split; [exact Hc4|]. split.
    + unfold coll. cbn [prop]. rewrite lookup_set_field_same. reflexivity.
    + intros dfs Hd. destruct (Hbefore dfs Hd) as [_ ->]. symmetry. exact Hcoll.
Qed.

(** C4 (code bug): the reconciliation's inline unit matching lowercases
    the unit and sends "box"/"boxes", "piece"/"pieces" and the area names to
    their counters and anything else to pieces, but it does not know "sqft"
    (which [normalizeUnitName] maps to "sft"), and the purchase side does not
    know "s.f.t" either: a sale of 3 "SQFT" of p1 leaves [sft] at 0 and
    takes 3 from [pieces]. *)
Theorem reconcile_sqft_to_pieces : forall S2N : string -> option Q,
  sale_counter (to_lower "SQFT") = "pieces" /\
  purchase_counter (to_lower "sqft") = "pieces" /\
  purchase_counter (to_lower "S.F.T") = "pieces" /\
  sale_counter (to_lower "S.F.T") = "sft" /\
  sale_counter (to_lower "Square Feet") = "sft" /\
  sale_counter (to_lower "BOXES") = "boxes" /\
  sale_counter (to_lower "crate") = "pieces" /\
  Utils.normalizeUnitName (Some "sqft") = "sft" /\
  Utils.normalizeUnitName (Some "s.f.t") = "sft" /\
  let (r, st1) := addSale S2N (Scenario.sale_of 3 "SQFT") Scenario.st0 in
  stock_of "p1" "sft" (cached st1) = Some (JNum 0) /\
  stock_of "p1" "pieces" (cached st1) = Some (JNum (-3)) /\
  stock_of "p1" "boxes" (cached st1) = Some (JNum 5).
Proof. intros S2N. vm_compute. repeat split; reflexivity. Qed.

(** C5: a line item [m] (an object) whose [productId] matches no product
    of the stored products array is skipped: its own step raises nothing,
    changes nothing and returns the products unchanged, and reconciling a
    sale whose items are [l1 ++ m :: l2] gives exactly the result and the
    final state of reconciling the same sale with items [l1 ++ l2], so
    every other item is still processed. *)
Theorem sale_skips_unknown_product : forall S2N fs st dfs ps l1 m l2,
  cache st = Some (JObj dfs) -> lookup "products" dfs = Some (JArr ps) ->
  m <> JNull -> find_prod ps (prop m "productId") 0 = inl None ->
  sale_item S2N (Some (JArr ps)) m st = (inl (Some (JArr ps)), st) /\
  applyStockChangesFromSale S2N (JObj (set_field "items" (JArr (l1 ++ m :: l2)) fs)) st =
  applyStockChangesFromSale S2N (JObj (set_field "items" (JArr (l1 ++ l2)) fs)) st.
Proof.
  intros S2N fs st dfs ps l1 m l2 Hc Hp Hn Hf.
  split; [apply sale_item_unmatched; assumption|].
  unfold applyStockChangesFromSale. cbn [prop]. rewrite !lookup_set_field_same.
  unfold bind at 1 4. rewrite (getCollection_cached "products" dfs st Hc), Hp. cbn [otruthy truthy].
  unfold bind at 1 3. rewrite sale_items_skip by assumption. reflexivity.
Qed.

(** C3: once [addSale] (resp. [addPurchase]) has persisted its record,
    appended to the sales (resp. purchases) collection of the cache and of
    storage, it returns that record whatever the reconciliation does, a
    raised error included, and the collection still ends with the record
    in the cache and in storage. *)
Theorem record_survives_reconciliation : forall S2N : string -> option Q,
  (forall saleData st sale st1,
     addSale_record saleData st = (inl sale, st1) ->
     exists l st2,
       coll_is "sales" (Some (JArr (l ++ [sale]))) st1 /\
       addSale S2N saleData st = (inl sale, st2) /\
       coll_is "sales" (Some (JArr (l ++ [sale]))) st2) /\
  (forall purchaseData st purchase st1,
     addPurchase_record purchaseData st = (inl purchase, st1) ->
     exists l st2,
       coll_is "purchases" (Some (JArr (l ++ [purchase]))) st1 /\
       addPurchase S2N purchaseData st = (inl purchase, st2) /\
       coll_is "purchases" (Some (JArr (l ++ [purchase]))) st2).
Proof.
  intros S2N. split.
  - intros saleData st sale st1 H.
    destruct (push_record_spec "sales" "sale" sale_defaults saleData st sale st1
                ltac:(discriminate) H) as [l Hc].
    assert (Hk : keeps (coll_is "sales" (Some (JArr (l ++ [sale]))))
                   (try_catch (applyStockChangesFromSale S2N sale) (fun _ => ret tt))).
    { apply keeps_try_catch; [apply keeps_sale; discriminate | intros; apply keeps_pure, pure_ret]. }
    specialize (Hk st1 Hc). unfold addSale, bind at 1. rewrite H.
    unfold try_catch, bind in *.
    destruct (applyStockChangesFromSale S2N sale st1) as [[u|e] st2]; simpl in *;
      exists l; eexists; (split; [exact Hc|]); (split; [reflexivity | exact Hk]).
  - intros purchaseData st purchase st1 H.
    destruct (push_record_spec "purchases" "pur" purchase_defaults purchaseData st purchase st1
                ltac:(discriminate) H) as [l Hc].
    assert (Hk : keeps (coll_is "purchases" (Some (JArr (l ++ [purchase]))))
                   (try_catch (applyStockChangesFromPurchase S2N purchase) (fun _ => ret tt))).
    { apply keeps_try_catch; [apply keeps_purchase; discriminate | intros; apply keeps_pure, pure_ret]. }
    specialize (Hk st1 Hc). unfold addPurchase, bind at 1. rewrite H.
    unfold try_catch, bind in *.
    destruct (applyStockChangesFromPurchase S2N purchase st1) as [[u|e] st2]; simpl in *;
      exists l; eexists; (split; [exact Hc|]); (split; [reflexivity | exact Hk]).
Qed.


End Claims.

(** * Further properties of the storage API and the utilities *)

Module Extras.
Import Js Store StoreApi StoreFacts ApiFacts.

(** X1: [onChange(f)] adds [f] to the watchers; calling the returned
    unsubscribe function removes every registration of [f], also ones made
    before.  Between the two, a [saveDB] notifies [f]; afterwards it does not. *)
Theorem onChange_unsubscribe : forall f fs1 fs2 st,
  let (r, st') := (unsub <- onChange (Some f) ;;
                   _ <- saveDB (JObj fs1) ;;
                   _ <- unsub ;;
                   saveDB (JObj fs2)) st in
  r = inl true /\
  watchers st' = filter (fun w => negb (Nat.eqb w f)) (watchers st) /\
  log st' = (log st ++ map (fun w => (w, JObj fs1)) (watchers st ++ [f])
             ++ map (fun w => (w, JObj fs2)) (filter (fun w => negb (Nat.eqb w f)) (watchers st)))%list.
Proof.
  intros f fs1 fs2 st. unfold onChange. cbv [bind ret get_watchers set_watchers].
  match goal with |- context [saveDB (JObj fs1) ?s] =>
    destruct (saveDB_obj_spec fs1 s) as (st1 & E1 & Hw1 & Hl1 & _); rewrite E1 end.
  match goal with |- context [saveDB (JObj fs2) ?s] =>
    destruct (saveDB_obj_spec fs2 s) as (st2 & E2 & Hw2 & Hl2 & _); rewrite E2 end.
  cbn [watchers log] in *. split; [reflexivity|].
  rewrite Hw2, Hl2, Hw1, Hl1. split.
  - rewrite filter_app. simpl. rewrite Nat.eqb_refl, app_nil_r. reflexivity.
  - rewrite filter_app. simpl. rewrite Nat.eqb_refl, app_nil_r, app_assoc. reflexivity.
Qed.

(** X2: after [addProduct] on a loaded store, [getProductById(id)] returns
    the first product with that id: an older product with the same id wins
    over the one just added. *)
Theorem getProductById_first_match : forall productData st dfs ps pid product st',
  cache st = Some (JObj dfs) -> lookup "products" dfs = Some (JArr ps) -> ~ In JNull ps ->
  addProduct productData st = (inl product, st') ->
  getProductById pid st' =
  (inl (match find (id_match pid) ps with
        | Some p => if truthy p then p else JNull
        | None => if strict_eq (prop product "id") pid then product else JNull
        end), st').
Proof.
  intros productData st dfs ps pid product st' Hc Hl Hn H.
  destruct (push_record_cache "products" "prod" product_defaults productData st dfs product st'
              Hc H) as (Hc' & _ & id & now & Hp).
  unfold coll in Hc'. cbn [prop] in Hc'. rewrite Hl in Hc'.
  unfold getProductById, getById, bind at 1.
  rewrite (getCollection_cached "products" _ st' Hc'), lookup_set_field_same. cbn [otruthy truthy].
  cbv [bind as_array ret lift].
  rewrite find_by_id_spec.
  - rewrite find_app_l. destruct (find (id_match pid) ps); [reflexivity|].
    cbn [find]. unfold id_match. destruct (strict_eq (prop product "id") pid);
    [rewrite Hp; reflexivity | reflexivity].
  - intro Hin. apply in_app_or in Hin. destruct Hin as [Hin|[E|[]]]; [exact (Hn Hin)|].
    rewrite Hp in E. discriminate.
Qed.

(** X3: with no element of that id, [updateProduct] and [deleteProduct]
    throw "Product not found" and [resolveAlert] throws "Alert not found",
    and the store is left as it was. *)
Theorem lookup_by_id_not_found : forall st dfs id,
  cache st = Some (JObj dfs) ->
  (forall ps, lookup "products" dfs = Some (JArr ps) -> ~ In JNull ps ->
     find (id_match id) ps = None ->
     (forall updates, updateProduct id updates st = (inr (Error "Product not found"), st)) /\
     deleteProduct id st = (inr (Error "Product not found"), st)) /\
  (forall al, lookup "alerts" dfs = Some (JArr al) -> ~ In JNull al ->
     find (id_match id) al = None ->
     resolveAlert id st = (inr (Error "Alert not found"), st)).
Proof.
  intros st dfs id Hc. split.
  - intros ps Hl Hn Hf. split.
    + intros updates. unfold updateProduct, bind at 1.
      rewrite (getCollection_cached "products" _ st Hc), Hl. cbn [otruthy truthy].
      cbv [bind as_array ret lift]. rewrite (find_prod_none ps id Hn Hf). reflexivity.
    + unfold deleteProduct, bind at 1.
      rewrite (getCollection_cached "products" _ st Hc), Hl. cbn [otruthy truthy].
      cbv [bind as_array ret lift]. rewrite (find_prod_none ps id Hn Hf). reflexivity.
  - intros al Hl Hn Hf. unfold resolveAlert, bind at 1.
    rewrite (getCollection_cached "alerts" _ st Hc), Hl. cbn [otruthy truthy].
    cbv [bind as_array ret lift]. rewrite (find_prod_none al id Hn Hf). reflexivity.
Qed.

(** X4: [updateProduct(id, updates)] replaces the first product with that
    id, in place, by its own keys overridden by [updates] and a
    [dateUpdated] stamp; the other products keep their positions. *)
Theorem updateProduct_spec : forall productId updates st dfs ps i fs,
  cache st = Some (JObj dfs) -> lookup "products" dfs = Some (JArr ps) ->
  find_prod ps productId 0 = inl (Some i) -> nth i ps JNull = JObj fs ->
  NoDup (map fst fs) -> NoDup (map fst updates) ->
  exists p st', updateProduct productId updates st = (inl p, st') /\
  cache st' = Some (JObj (set_field "products" (JArr (firstn i ps ++ p :: skipn (S i) ps)) dfs)) /\
  prop p "dateUpdated" = Some (ts (clock st)) /\
  (forall k, k <> "dateUpdated" ->
     prop p k = match lookup k updates with Some v => Some v | None => lookup k fs end).
Proof.
  intros productId updates st dfs ps i fs Hc Hl Hf Hi Hnf Hnu.
  unfold updateProduct, bind at 1.
  rewrite (getCollection_cached "products" _ st Hc), Hl. cbn [otruthy truthy].
  cbv [bind as_array ret lift]. rewrite Hf, Hi. unfold nowISO at 1.
  match goal with |- context [saveCollection "products" (Some (JArr ?l)) ?s] =>
    destruct (saveCollection_obj "products" l s dfs Hc) as (st' & E & Hc' & _); rewrite E end.
  eexists; eexists. split; [reflexivity|]. split; [exact Hc'|].
  cbn [own_entries prop]. split.
  - rewrite assign_lookup by (repeat constructor; intros []). reflexivity.
  - intros k Hk. rewrite assign_lookup by (repeat constructor; intros []).
    simpl lookup at 1. apply String.eqb_neq in Hk. rewrite Hk.
    rewrite (assign_lookup updates _ k Hnu). destruct (lookup k updates); [reflexivity|].
    rewrite (assign_lookup fs [] k Hnf). destruct (lookup k fs); reflexivity.
Qed.

(** X5: [deleteProduct(id)] removes every product with that id, not only
    the first one, and keeps the others in order. *)
Theorem deleteProduct_removes_all : forall productId st dfs ps p,
  cache st = Some (JObj dfs) -> lookup "products" dfs = Some (JArr ps) -> ~ In JNull ps ->
  find (id_match productId) ps = Some p -> truthy p = true ->
  exists st', deleteProduct productId st = (inl true, st') /\
  cache st' = Some (JObj (set_field "products"
                 (JArr (filter (fun q => negb (id_match productId q)) ps)) dfs)).
Proof.
  intros productId st dfs ps p Hc Hl Hn Hf Ht.
  unfold deleteProduct, bind at 1.
  rewrite (getCollection_cached "products" _ st Hc), Hl. cbn [otruthy truthy].
  cbv [bind as_array ret lift].
  pose proof (find_prod_spec ps productId 0 Hn) as HS.
  destruct (find_prod ps productId 0) as [[j|]|e]; [|rewrite Hf in HS; discriminate|destruct HS].
  destruct HS as (_ & _ & HS). rewrite Hf, Nat.sub_0_r in HS. injection HS as <-.
  cbn [otruthy]. rewrite Ht. cbn [negb]. rewrite (filter_id_spec ps productId Hn).
  match goal with |- context [saveCollection "products" (Some (JArr ?l)) ?s] =>
    destruct (saveCollection_obj "products" l s dfs Hc) as (st' & E & Hc' & _); rewrite E end.
  exists st'. split; [reflexivity | exact Hc'].
Qed.

(** X6: [resolveAlert(id)] sets [resolved = true] and [resolvedAt] on the
    first alert with that id, in place, and keeps its other keys; it never
    breaks the at-most-one-unresolved-alert invariant. *)
Theorem resolveAlert_spec : forall alertId st dfs al i,
  cache st = Some (JObj dfs) -> lookup "alerts" dfs = Some (JArr al) ->
  find_prod al alertId 0 = inl (Some i) ->
  exists a st', resolveAlert alertId st = (inl a, st') /\
  cache st' = Some (JObj (set_field "alerts" (JArr (firstn i al ++ a :: skipn (S i) al)) dfs)) /\
  (forall fs, nth i al JNull = JObj fs ->
     prop a "resolved" = Some (JBool true) /\ prop a "resolvedAt" = Some (ts (clock st)) /\
     forall k, k <> "resolved" -> k <> "resolvedAt" -> prop a k = lookup k fs) /\
  (store_inv st -> store_inv st').
Proof.
  intros alertId st dfs al i Hc Hl Hf.
  destruct (find_prod_some al alertId 0 i Hf) as (_ & Hlen & Hnn). rewrite Nat.sub_0_r in *.
  unfold resolveAlert, bind at 1.
  rewrite (getCollection_cached "alerts" _ st Hc), Hl. cbn [otruthy truthy].
  cbv [bind as_array ret lift]. rewrite Hf, (set_prop_some _ _ _ st Hnn). unfold nowISO at 1.
  set (x := nth i al JNull) in *.
  set (a := match x with JObj fs => JObj (set_field "resolved" (JBool true) fs) | _ => x end).
  assert (Ha : a <> JNull) by (unfold a; destruct x; [exact Hnn|discriminate ..]).
  rewrite set_prop_some by exact Ha. cbn [cache ls watchers log clock].
  set (a' := match a with JObj fs => JObj (set_field "resolvedAt" (JStr ("T" ++ digits (clock st))) fs) | _ => a end).
  set (s1 := {| ls := ls st; cache := cache st; watchers := watchers st; log := log st;
                clock := S (clock st) |}).
  assert (Hc1 : cache s1 = Some (JObj dfs)) by exact Hc.
  pose proof (saveCollection_alerts_pres dfs s1 (firstn i al ++ a' :: skipn (S i) al)) as Hpres.
  destruct (saveCollection_obj "alerts" (firstn i al ++ a' :: skipn (S i) al) s1 dfs Hc1)
    as (st' & E & Hc' & _).
  rewrite E in Hpres |- *. exists a', st'. split; [reflexivity|]. split; [exact Hc'|]. split.
  - intros fs Hx. unfold a', a. rewrite Hx. cbn [prop]. split; [|split].
    + rewrite lookup_set_field_other by discriminate. apply lookup_set_field_same.
    + apply lookup_set_field_same.
    + intros k Hk1 Hk2. rewrite !lookup_set_field_other by assumption. reflexivity.
  - intros Hinv. apply Hpres; [exact Hinv | exact Hc1 |]. intro p.
    eapply Nat.le_trans; [apply count_replace; [exact Hlen|]|].
    + intro Hu. change (nth i al JNull) with x. destruct x as [| | | | |fs];
        [exfalso; apply Hnn; reflexivity | exact Hu .. |].
      exfalso. cbv [a' a] in Hu. unfold unresolved_for in Hu. cbn [prop] in Hu.
      rewrite (lookup_set_field_other "resolved" "resolvedAt"), lookup_set_field_same in Hu
        by discriminate.
      simpl in Hu. rewrite andb_false_r in Hu. discriminate.
    + destruct Hinv as [Hci _]. rewrite Hc in Hci. specialize (Hci p).
      unfold count_unresolved, coll in Hci. cbn [prop] in Hci. rewrite Hl in Hci. exact Hci.
Qed.

(** X7: [addAlert] does not look for an existing unresolved alert: an
    unresolved alert for a product that already has one is appended, and
    the invariant of at most one unresolved alert per product breaks. *)
Theorem addAlert_no_dedup : forall alertData st dfs al pid a st',
  cache st = Some (JObj dfs) -> lookup "alerts" dfs = Some (JArr al) ->
  NoDup (map fst alertData) ->
  lookup "productId" alertData = Some (JStr pid) ->
  otruthy (lookup "resolved" alertData) = false ->
  addAlert alertData st = (inl a, st') ->
  count_unresolved (Some (JStr pid)) (cached st') =
    S (count_unresolved (Some (JStr pid)) (cached st)) /\
  ((1 <= count_unresolved (Some (JStr pid)) (cached st))%nat -> ~ alerts_inv (cached st')).
Proof.
  intros alertData st dfs al pid a st' Hc Hl Hnd Hp Hr H.
  destruct (push_record_cache "alerts" "alert" (fun id now => alert_defaults id alertData now)
              alertData st dfs a st' Hc H) as (Hc' & _ & id & now & Ha).
  assert (Hcl : coll "alerts" (JObj dfs) = al) by (unfold coll; cbn [prop]; rewrite Hl; reflexivity).
  rewrite Hcl in Hc'.
  assert (Hcount : count_unresolved (Some (JStr pid)) (cached st') =
                   S (count_unresolved (Some (JStr pid)) (cached st))).
  { unfold cached, count_unresolved, coll. rewrite Hc', Hc. cbn [prop].
    rewrite lookup_set_field_same, Hl, filter_app, length_app.
    assert (Hu : unresolved_for (Some (JStr pid)) a = true).
    { rewrite Ha. unfold unresolved_for. cbn [prop].
      rewrite !(assign_lookup alertData _ _ Hnd), Hp.
      destruct (lookup "resolved" alertData) as [r|]; simpl in Hr |- *.
      - rewrite Hr, String.eqb_refl. reflexivity.
      - rewrite String.eqb_refl. reflexivity. }
    cbn [filter length]. rewrite Hu. cbn [length]. lia. }
  split; [exact Hcount|]. intros H1 Hinv. specialize (Hinv (Some (JStr pid))). unfold alerts_inv in Hinv. rewrite Hcount in Hinv. lia.
Qed.

(** X8: [clearDB()] replaces the stored and the cached document by a fresh
    empty one, keeps the watchers and notifies none of them. *)
Theorem clearDB_resets : forall st,
  let E := empty_doc (ts (clock st)) (ts (S (clock st))) in
  clearDB st = (inl E, mkSt (Some (TJson E)) (Some E) (watchers st) (log st) (S (S (clock st)))).
Proof.
  intros st E. reflexivity.
Qed.

(** X9: [importDB(json, true)] appends to each collection the incoming
    items with a truthy id absent from the collection before the merge;
    incoming items that share an id are all appended.  The other keys of
    the document are kept. *)
Theorem importDB_merge_appends : forall parsed st dfs,
  cache st = Some (JObj dfs) -> parsed <> JNull ->
  (forall k, In k collection_names -> exists t, lookup k dfs = Some (JArr t) /\ ~ In JNull t) ->
  (forall k inc, In k collection_names -> prop parsed k = Some (JArr inc) -> ~ In JNull inc) ->
  exists fs' st', importDB (TJson parsed) true st = (inl (JObj fs'), st') /\
    cache st' = Some (JObj fs') /\
    (forall k t, In k collection_names -> lookup k dfs = Some (JArr t) ->
       lookup k fs' = Some (JArr (merge_result t (prop parsed k)))) /\
    (forall k, ~ In k collection_names -> lookup k fs' = lookup k dfs).
Proof.
  intros parsed st dfs Hc Hp Hcol Hinc.
  assert (Hnd : NoDup collection_names) by (repeat constructor; simpl; intuition discriminate).
  destruct (foldM_merge_into parsed collection_names dfs st Hp Hnd Hcol Hinc) as (fs' & Ef & Hk).
  destruct (saveDB_obj fs' st) as (st' & Es & Hc').
  exists fs', st'. split; [|split; [exact Hc'|split]].
  - unfold importDB. cbn [negb]. unfold bind at 1.
    rewrite (loadDB_cached (JObj dfs) st Hc eq_refl). unfold bind at 1. rewrite Ef.
    unfold bind. rewrite Es. reflexivity.
  - intros k t Hin Hl. rewrite Hk, Hl.
    replace (existsb (String.eqb k) collection_names) with true; [reflexivity|].
    symmetry. apply existsb_exists. exists k. split; [exact Hin | apply String.eqb_refl].
  - intros k Hin. rewrite Hk.
    replace (existsb (String.eqb k) collection_names) with false; [reflexivity|].
    symmetry. apply Bool.not_true_iff_false. intro Hx. apply existsb_exists in Hx.
    destruct Hx as (x & Hx & Ex). apply String.eqb_eq in Ex. subst. contradiction.
Qed.

(** X10: a document saved by [saveDB] with a [meta] of version 1 is read
    back by [loadDB(true)] as it was saved, with only [meta.updatedAt]
    set to the save time. *)
Theorem saveDB_loadDB_roundtrip : forall fs mfs st,
  lookup "meta" fs = Some (JObj mfs) ->
  strict_eq (lookup "version" mfs) (Some DB_VERSION) = true ->
  let d := JObj (set_field "meta" (JObj (set_field "updatedAt" (ts (clock st)) mfs)) fs) in
  exists st1 st2, saveDB (JObj fs) st = (inl true, st1) /\
    loadDB true st1 = (inl d, st2) /\ cache st2 = Some d /\ ls st2 = Some (TJson d).
Proof.
  intros fs mfs st Hm Hv d.
  assert (Hs : exists st1, saveDB (JObj fs) st = (inl true, st1) /\ ls st1 = Some (TJson d)).
  { unfold saveDB, adapter_save, bind, get, set_prop at 1, ret. cbn -[digits].
    rewrite Hm. cbn -[digits].
    unfold set_in, bind, get. cbn -[digits]. rewrite lookup_set_field_same. cbn -[digits].
    rewrite set_field_twice. eexists. split; reflexivity. }
  destruct Hs as (st1 & Es & Hl).
  assert (Hnm : needs_migration d = false).
  { unfold needs_migration, d. cbn [prop]. rewrite lookup_set_field_same. cbn [otruthy truthy negb oprop prop].
    rewrite lookup_set_field_other by discriminate. rewrite Hv. reflexivity. }
  exists st1, (mkSt (ls st1) (Some d) (watchers st1) (log st1) (clock st1)).
  split; [exact Es|].
  assert (Hload : loadDB true st1 = (inl d, mkSt (ls st1) (Some d) (watchers st1) (log st1) (clock st1))).
  { unfold loadDB.
    assert (Ha : adapter_load st1 = (inl d, st1)).
    { unfold adapter_load, bind at 1, get_ls. rewrite Hl. unfold try_catch.
      rewrite load_parsed_eq by discriminate. rewrite Hnm. reflexivity. }
    destruct (cache st1); unfold bind at 1; rewrite Ha; try destruct (truthy j); reflexivity. }
  split; [exact Hload|]. split; [reflexivity | exact Hl].
Qed.

(** X11: [loadDB(true)] on missing, empty, unparsable or [null] storage
    ignores the cache and returns, stores and caches a fresh empty document. *)
Theorem loadDB_force_unreadable_resets : forall st,
  (ls st = None \/ ls st = Some TEmpty \/ ls st = Some TInvalid \/ ls st = Some (TJson JNull)) ->
  let E := empty_doc (ts (clock st)) (ts (S (clock st))) in
  loadDB true st =
  (inl E, mkSt (Some (TJson E)) (Some E) (watchers st) (log st) (S (S (clock st)))).
Proof.
  intros st Hls E.
  assert (Ha : adapter_load st = fresh_db st).
  { unfold adapter_load, bind at 1, get_ls.
    destruct Hls as [H|[H|[H|H]]]; rewrite H; reflexivity. }
  unfold loadDB.
  destruct (cache st) as [c|]; [destruct (truthy c)|]; cbn [andb negb];
    unfold bind at 1; rewrite Ha, fresh_db_eq; reflexivity.
Qed.

(** X12: [addPurchase] keeps at most one unresolved alert per product id,
    in the cache and in storage. *)
Theorem addPurchase_keeps_alert_invariant : forall (S2N : string -> option Q) purchaseData st,
  store_inv st -> store_inv (snd (addPurchase S2N purchaseData st)).
Proof.
  intros S2N purchaseData. unfold addPurchase.
  apply pres_bind; [apply pres_addPurchase_record | intro purchase].
  apply pres_bind; [|intros _; apply pres_pure, pure_ret].
  apply pres_try_catch; [apply pres_applyStockChangesFromPurchase | intros _; apply pres_pure, pure_ret].
Qed.

(** X13: [boxesNeededForSft(r, s)] is 0 when [s <= 0]; otherwise it is the
    least box count [b] with [b * s >= r]. *)
Theorem boxesNeededForSft_cover : forall (S2N : string -> option Q) requiredSft sftPerBox,
  let r := Utils.toNumber S2N requiredSft 0 in
  let s := Utils.toNumber S2N sftPerBox 0 in
  let b := UtilsMore.boxesNeededForSft S2N requiredSft sftPerBox in
  (s <= 0 -> b = 0%Z) /\
  (0 < s -> (inject_Z b - 1) * s < r /\ r <= inject_Z b * s).
Proof.
  intros S2N rq sq r s b. split.
  - intro Hs. unfold b, UtilsMore.boxesNeededForSft. fold r s.
    apply Qle_bool_iff in Hs. rewrite Hs. reflexivity.
  - intro Hs. unfold b, UtilsMore.boxesNeededForSft. fold r s.
    rewrite (Qle_bool_false_lt s Hs). apply ceiling_cover. exact Hs.
Qed.

(** X14: [computeBoxesPiecesSftFromRequiredSft] reports
    [boxesRoundedUp = boxesNeededForSft(r, s)]; for [s > 0] its leftover is
    the rounding of a value in [[0, s)] and is never negative, and for
    [s <= 0] the leftover is [r] itself. *)
Theorem computeBoxes_cover : forall (S2N : string -> option Q) requiredSft sftPerBox piecesPerBox,
  let r := Utils.toNumber S2N requiredSft 0 in
  let s := Utils.toNumber S2N sftPerBox 0 in
  let p := Utils.toNumber S2N piecesPerBox 0 in
  let o := UtilsMore.computeBoxesPiecesSftFromRequiredSft S2N requiredSft sftPerBox piecesPerBox in
  let b := UtilsMore.boxesNeededForSft S2N requiredSft sftPerBox in
  prop o "boxesRoundedUp" = Some (JNum (inject_Z b)) /\
  (s <= 0 -> prop o "leftoverSft" = Some (JNum r) /\ prop o "equivalentPieces" = Some (JNum 0)) /\
  (0 < s ->
     (exists x, 0 <= x /\ x < s /\ inject_Z b * s - r == x /\
                prop o "leftoverSft" = Some (JNum (Utils.roundTo x))) /\
     0 <= Utils.roundTo (inject_Z b * s - r) /\
     prop o "equivalentPieces" = Some (JNum (if Qlt_bool 0 p then inject_Z b * p else 0))).
Proof.
  intros S2N rq sq pq r s p o b.
  unfold o, b, UtilsMore.computeBoxesPiecesSftFromRequiredSft, UtilsMore.boxesNeededForSft.
  fold r s p.
  destruct (Qle_bool s 0) eqn:Hs.
  - split; [reflexivity|]. split.
    + intros _. split; reflexivity.
    + intro Hlt. apply Qle_bool_iff in Hs. exfalso. exact (Qlt_not_le _ _ Hlt Hs).
  - split; [reflexivity|]. split.
    + intro Hle. apply Qle_bool_iff in Hle. rewrite Hle in Hs. discriminate.
    + intro Hlt. destruct (ceiling_cover r s Hlt) as [H1 H2].
      assert (Hx0 : 0 <= inject_Z (Qceiling (r / s)) * s - r).
      { apply (Qplus_le_l _ _ r). ring_simplify. exact H2. }
      split; [|split].
      * exists (inject_Z (Qceiling (r / s)) * s - r). split; [exact Hx0|]. split.
        -- apply (Qplus_lt_l _ _ (r - s)). ring_simplify.
           setoid_replace (inject_Z (Qceiling (r / s)) * s - s)
             with ((inject_Z (Qceiling (r / s)) - 1) * s) by ring. exact H1.
        -- split; reflexivity.
      * apply roundTo_nonneg. exact Hx0.
      * reflexivity.
Qed.

(** X15: rounding to 3 decimals twice gives the same value as once. *)
Theorem roundTo_idempotent : forall v, Utils.roundTo (Utils.roundTo v) = Utils.roundTo v.
Proof.
  intros v. unfold Utils.roundTo at 1. set (w := Utils.roundTo v).
  assert (Hw : w == inject_Z (math_round ((v + Utils.EPSILON) * 1000)) / 1000)
    by (unfold w, Utils.roundTo; apply Qred_correct).
  set (z := math_round ((v + Utils.EPSILON) * 1000)) in Hw.
  assert (Hr : math_round ((w + Utils.EPSILON) * 1000) = z).
  { assert (Heq : (w + Utils.EPSILON) * 1000 + (1 # 2) ==
                  inject_Z z + (Utils.EPSILON * 1000 + (1 # 2)))
      by (rewrite Hw; field).
    unfold math_round. rewrite (Qfloor_comp _ _ Heq).
    apply Qfloor_shift; unfold Utils.EPSILON; [vm_compute; discriminate | vm_compute; reflexivity]. }
  rewrite Hr. reflexivity.
Qed.

(** X16: a non-empty unit name made only of white space (every code unit
    is one [trim] removes: on the modelled range U+0000..U+00FF these are
    tab, LF, VT, FF, CR, space and no-break space) normalizes to "" (not to
    "piece" as an empty one does), and converting to it from any unit whose
    normalized name is not "" gives NaN. *)
Theorem whitespace_unit_not_convertible : forall (S2N : string -> option Q) s,
  s <> "" -> forallb is_ws (list_ascii_of_string s) = true ->
  Utils.normalizeUnitName (Some s) = "" /\
  forall quantity fromUnit piecesPerBox sftPerBox,
    Utils.normalizeUnitName fromUnit <> "" ->
    Utils.convertUnits S2N quantity fromUnit (Some s) piecesPerBox sftPerBox = None.
Proof.
  intros S2N s Hne Hws.
  assert (Hn : Utils.normalizeUnitName (Some s) = "").
  { destruct s as [|c s']; [contradiction Hne; reflexivity|].
    unfold Utils.normalizeUnitName. unfold trim. rewrite (trim_left_ws _ Hws). reflexivity. }
  split; [exact Hn|].
  intros q f ppb spb Hf. unfold Utils.convertUnits. rewrite Hn. cbv zeta.
  destruct (Utils.normalizeUnitName f =? "") eqn:E; [apply String.eqb_eq in E; contradiction|].
  destruct (Utils.normalizeUnitName f =? "box"), (Utils.normalizeUnitName f =? "piece"),
    (Utils.normalizeUnitName f =? "sft");
    repeat match goal with |- context [Qle_bool ?a ?b] => destruct (Qle_bool a b) end;
    reflexivity.
Qed.

End Extras.

(** * Witnesses: the theorems above applied to concrete stores *)

Module Witnesses.
Import Js Store StoreFacts Scenario Claims.



Lemma record_survives_reconciliation_witness :
  exists sale st1, addSale_record sale_bad_unit st0 = (inl sale, st1) /\
  exists l st2,
    coll_is "sales" (Some (JArr (l ++ [sale]))) st1 /\
    addSale no_s2n sale_bad_unit st0 = (inl sale, st2) /\
    coll_is "sales" (Some (JArr (l ++ [sale]))) st2.
Proof.
  destruct (addSale_record sale_bad_unit st0) as [[sale|e] st1] eqn:E;
    [|vm_compute in E; discriminate].
  exists sale, st1. split; [reflexivity|].
  exact (proj1 (record_survives_reconciliation no_s2n) sale_bad_unit st0 sale st1 E).
Defined.

Lemma sale_skips_unknown_product_witness :
  cache st0 = Some (JObj doc0_fields) /\
  lookup "products" doc0_fields = Some (JArr [product_p1]) /\
  item_unknown <> JNull /\
  find_prod [product_p1] (prop item_unknown "productId") 0 = inl None /\
  sale_item no_s2n (Some (JArr [product_p1])) item_unknown st0 =
    (inl (Some (JArr [product_p1])), st0) /\
  applyStockChangesFromSale no_s2n
    (JObj (set_field "items" (JArr ([item_p1 1 (JStr "box")] ++ item_unknown :: [])) [])) st0 =
  applyStockChangesFromSale no_s2n
    (JObj (set_field "items" (JArr ([item_p1 1 (JStr "box")] ++ [])) [])) st0.
Proof.
  split; [reflexivity|]. split; [reflexivity|]. split; [discriminate|].
  split; [vm_compute; reflexivity|].
  apply (sale_skips_unknown_product no_s2n [] st0 doc0_fields [product_p1]
           [item_p1 1 (JStr "box")] item_unknown []).
  - reflexivity.
  - reflexivity.
  - discriminate.
  - vm_compute. reflexivity.
Defined.

Lemma load_migration_lossy_witness :
  ls st6 = Some (TJson doc6) /\ prop doc6 "meta" = None /\
  exists m st',
    adapter_load st6 = (inl m, st') /\ ls st' = Some (TJson m) /\
    (exists c u, m = migrated_doc doc6 c u) /\
    oprop (prop m "meta") "version" = Some DB_VERSION /\
    prop m "alerts" = Some (JArr []) /\ prop m "users" = Some (JArr []) /\
    (forall k, In k ["products"; "sales"; "purchases"] ->
       (forall l, prop doc6 k = Some (JArr l) -> prop m k = Some (JArr l)) /\
       (prop doc6 k = None -> prop m k = Some (JArr []))).
Proof.
  split; [reflexivity|]. split; [reflexivity|].
  exact (load_migration_lossy st6 doc6 eq_refl (or_introl eq_refl)).
Defined.

Lemma export_import_collections_witness :
  exists fn t st1, exportDB st7 = (inl (fn, t), st1) /\
  exists db d st2,
    t = TJson db /\ cache st1 = Some db /\
    importDB t false st1 = (inl d, st2) /\ cache st2 = Some d /\
    forall k, In k collection_names ->
      prop d k = if is_array (prop db k) then prop db k else Some (JArr []).
Proof.
  destruct (exportDB st7) as [[[fn t]|e] st1] eqn:E; [|vm_compute in E; discriminate].
  exists fn, t, st1. split; [reflexivity|].
  exact (export_import_collections st7 fn t st1 E).
Defined.

Lemma saveDB_cache_unstamped_witness :
  exists b st', saveDB doc9 st9 = (inl b, st') /\
  b = true /\ cache st' = Some doc9 /\
  log st' = (log st9 ++ map (fun w => (w, doc9)) (watchers st9))%list /\
  loadDB false st' = (inl doc9, st') /\
  (forall k, k <> "meta" -> prop (stored st') k = prop doc9 k) /\
  (forall mfs, prop doc9 "meta" = Some (JObj mfs) ->
     prop (stored st') "meta" =
     Some (JObj (set_field "updatedAt" (JStr ("T" ++ digits (clock st9))) mfs))).
Proof.
  destruct (saveDB doc9 st9) as [[b|e] st'] eqn:E; [|vm_compute in E; discriminate].
  exists b, st'. split; [reflexivity|].
  exact (saveDB_cache_unstamped doc9 st9 b st' E).
Defined.

Lemma addProduct_overrides_witness :
  NoDup (map fst new_product_data) /\
  exists product st', addProduct new_product_data st0 = (inl product, st') /\
  (exists id now, forall k,
     prop product k = match lookup k new_product_data with
                      | Some v => Some v
                      | None => lookup k (product_defaults id now)
                      end) /\
  exists l fs,
    cache st' = Some (JObj fs) /\ coll "products" (JObj fs) = (l ++ [product])%list /\
    (forall dfs, cache st0 = Some (JObj dfs) -> l = coll "products" (JObj dfs)).
Proof.
  assert (Hnd : NoDup (map fst new_product_data)).
  { cbn. repeat constructor; cbn; intuition discriminate. }
  split; [exact Hnd|].
  destruct (addProduct new_product_data st0) as [[product|e] st'] eqn:E;
    [|vm_compute in E; discriminate].
  exists product, st'. split; [reflexivity|].
  exact (addProduct_overrides new_product_data st0 product st' Hnd E).
Defined.

Import StoreApi UtilsMore ApiFacts Extras.

Lemma st2_store_inv : store_inv st2.
Proof.
  assert (H : forall d, coll "alerts" d = [alert_p1] -> alerts_inv d).
  { intros d Hd pid. unfold count_unresolved. rewrite Hd. cbn [filter].
    destruct (unresolved_for pid alert_p1); cbn [length]; lia. }
  split; apply H; reflexivity.
Qed.

Lemma getProductById_first_match_witness :
  exists product st', addProduct dup_product_data st0 = (inl product, st') /\
  getProductById (Some (JStr "p1")) st' = (inl product_p1, st').
Proof.
  destruct (addProduct dup_product_data st0) as [[product|e] st'] eqn:E;
    [|vm_compute in E; discriminate].
  assert (Hn : ~ In JNull [product_p1]) by (intros [Hx|[]]; discriminate).
  exists product, st'. split; [reflexivity|].
  rewrite (getProductById_first_match dup_product_data st0 doc0_fields [product_p1]
             (Some (JStr "p1")) product st' eq_refl eq_refl Hn E).
  reflexivity.
Defined.

Lemma lookup_by_id_not_found_witness :
  (forall updates, updateProduct (Some (JStr "zz")) updates st0 =
                   (inr (Error "Product not found"), st0)) /\
  deleteProduct (Some (JStr "zz")) st0 = (inr (Error "Product not found"), st0) /\
  resolveAlert (Some (JStr "zz")) st0 = (inr (Error "Alert not found"), st0).
Proof.
  destruct (lookup_by_id_not_found st0 doc0_fields (Some (JStr "zz")) eq_refl) as [Hp Ha].
  assert (Hn : ~ In JNull [product_p1]) by (intros [Hx|[]]; discriminate).
  destruct (Hp [product_p1] eq_refl Hn eq_refl) as [Hu Hd].
  split; [exact Hu|]. split; [exact Hd|].
  apply (Ha []); [reflexivity | intros [] | reflexivity].
Defined.

Lemma updateProduct_spec_witness :
  exists p st', updateProduct (Some (JStr "p1")) [("name", JStr "Tile 2")] st0 = (inl p, st') /\
  prop p "name" = Some (JStr "Tile 2") /\ prop p "minStock" = Some (JNum 2) /\
  prop p "dateUpdated" = Some (ts (clock st0)).
Proof.
  set (fs := [("id", JStr "p1"); ("name", JStr "Tile");
              ("currentStock", JObj [("boxes", JNum 5); ("pieces", JNum 0); ("sft", JNum 0)]);
              ("minStock", JNum 2)]).
  assert (Hnf : NoDup (map fst fs)) by (cbn; repeat constructor; cbn; intuition discriminate).
  assert (Hnu : NoDup (map fst [("name", JStr "Tile 2")])) by (cbn; repeat constructor; intros []).
  destruct (updateProduct_spec (Some (JStr "p1")) [("name", JStr "Tile 2")] st0 doc0_fields
              [product_p1] 0 fs eq_refl eq_refl eq_refl eq_refl Hnf Hnu)
    as (p & st' & E & _ & Hd & Hk).
  exists p, st'. split; [exact E|].
  split; [rewrite Hk by discriminate; reflexivity|].
  split; [rewrite Hk by discriminate; reflexivity | exact Hd].
Defined.

Lemma deleteProduct_removes_all_witness :
  exists st', deleteProduct (Some (JStr "p1")) st_dup = (inl true, st') /\
  cache st' = Some (JObj (set_field "products" (JArr [product_p2]) doc_dup_fields)).
Proof.
  assert (Hn : ~ In JNull [product_p1; product_p2; product_p1])
    by (intros [Hx|[Hx|[Hx|[]]]]; discriminate).
  destruct (deleteProduct_removes_all (Some (JStr "p1")) st_dup doc_dup_fields
              [product_p1; product_p2; product_p1] product_p1 eq_refl eq_refl Hn eq_refl eq_refl)
    as (st' & E & Hc).
  exists st'. split; [exact E | rewrite Hc; reflexivity].
Defined.

Lemma resolveAlert_spec_witness :
  exists a st', resolveAlert (Some (JStr "alert_0")) st2 = (inl a, st') /\
  prop a "resolved" = Some (JBool true) /\ prop a "productId" = Some (JStr "p1") /\
  store_inv st'.
Proof.
  destruct (resolveAlert_spec (Some (JStr "alert_0")) st2 doc2_fields [alert_p1] 0
              eq_refl eq_refl eq_refl) as (a & st' & E & _ & Hk & Hinv).
  destruct (Hk [("id", JStr "alert_0"); ("productId", JStr "p1"); ("resolved", JBool false)]
              eq_refl) as (Hr & _ & Ho).
  exists a, st'. split; [exact E|]. split; [exact Hr|].
  split; [rewrite Ho by discriminate; reflexivity | exact (Hinv st2_store_inv)].
Defined.

Lemma addAlert_no_dedup_witness :
  exists a st', addAlert alert_data_p1 st2 = (inl a, st') /\
  count_unresolved (Some (JStr "p1")) (cached st') = 2%nat /\ ~ alerts_inv (cached st').
Proof.
  destruct (addAlert alert_data_p1 st2) as [[a|e] st'] eqn:E; [|vm_compute in E; discriminate].
  assert (Hnd : NoDup (map fst alert_data_p1)) by (cbn; repeat constructor; intros []).
  destruct (addAlert_no_dedup alert_data_p1 st2 doc2_fields [alert_p1] "p1" a st'
              eq_refl eq_refl Hnd eq_refl eq_refl E) as [Hc Hn].
  assert (H1 : count_unresolved (Some (JStr "p1")) (cached st2) = 1%nat) by reflexivity.
  exists a, st'. split; [reflexivity|]. split; [rewrite Hc, H1; reflexivity|].
  apply Hn. rewrite H1. apply le_n.
Defined.

Lemma importDB_merge_appends_witness :
  exists fs' st', importDB (TJson import_doc) true st0 = (inl (JObj fs'), st') /\
  lookup "products" fs' = Some (JArr [product_p1; product_p3; product_p3]) /\
  lookup "sales" fs' = Some (JArr []).
Proof.
  assert (Hc : forall k, In k collection_names ->
                 exists t, lookup k doc0_fields = Some (JArr t) /\ ~ In JNull t).
  { intros k Hk. destruct Hk as [<-|[<-|[<-|[<-|[<-|[]]]]]]; eexists;
      (split; [reflexivity|]); cbn; intuition discriminate. }
  assert (Hi : forall k inc, In k collection_names -> prop import_doc k = Some (JArr inc) ->
                 ~ In JNull inc).
  { intros k inc Hk Hp. destruct Hk as [<-|[<-|[<-|[<-|[<-|[]]]]]]; cbn in Hp; try discriminate.
    injection Hp as <-. cbn. intuition discriminate. }
  assert (Hn : import_doc <> JNull) by discriminate.
  destruct (importDB_merge_appends import_doc st0 doc0_fields eq_refl Hn Hc Hi)
    as (fs' & st' & E & _ & Ht & _).
  exists fs', st'. split; [exact E|].
  rewrite (Ht "products" [product_p1] (or_introl eq_refl) eq_refl).
  rewrite (Ht "sales" [] (or_intror (or_introl eq_refl)) eq_refl).
  split; reflexivity.
Defined.

Lemma saveDB_loadDB_roundtrip_witness :
  exists st1 st2, saveDB doc0 st0 = (inl true, st1) /\
  loadDB true st1 =
  (inl (JObj (set_field "meta" (JObj (set_field "updatedAt" (ts (clock st0)) [("version", JNum 1)]))
                doc0_fields)), st2).
Proof.
  destruct (saveDB_loadDB_roundtrip doc0_fields [("version", JNum 1)] st0 eq_refl eq_refl)
    as (st1 & st2' & E1 & E2 & _).
  exists st1, st2'. split; [exact E1 | exact E2].
Defined.

Lemma loadDB_force_unreadable_resets_witness :
  ls st_lost = None /\ cache st_lost = Some doc0 /\
  loadDB true st_lost =
  (inl (empty_doc (ts (clock st_lost)) (ts (S (clock st_lost)))),
   mkSt (Some (TJson (empty_doc (ts (clock st_lost)) (ts (S (clock st_lost))))))
        (Some (empty_doc (ts (clock st_lost)) (ts (S (clock st_lost)))))
        (watchers st_lost) (log st_lost) (S (S (clock st_lost)))).
Proof.
  split; [reflexivity|]. split; [reflexivity|].
  exact (loadDB_force_unreadable_resets st_lost (or_introl eq_refl)).
Defined.

Lemma addPurchase_keeps_alert_invariant_witness :
  store_inv st2 /\ store_inv (snd (addPurchase no_s2n purchase_p1 st2)).
Proof.
  split; [exact st2_store_inv|].
  exact (addPurchase_keeps_alert_invariant no_s2n purchase_p1 st2 st2_store_inv).
Defined.

Lemma boxesNeededForSft_cover_witness :
  0 < Utils.toNumber no_s2n (Some (JNum 4)) 0 /\
  boxesNeededForSft no_s2n (Some (JNum 10)) (Some (JNum 4)) = 3%Z /\
  (inject_Z (boxesNeededForSft no_s2n (Some (JNum 10)) (Some (JNum 4))) - 1)
    * Utils.toNumber no_s2n (Some (JNum 4)) 0 < Utils.toNumber no_s2n (Some (JNum 10)) 0 /\
  Utils.toNumber no_s2n (Some (JNum 10)) 0 <=
    inject_Z (boxesNeededForSft no_s2n (Some (JNum 10)) (Some (JNum 4)))
    * Utils.toNumber no_s2n (Some (JNum 4)) 0.
Proof.
  assert (Hs : 0 < Utils.toNumber no_s2n (Some (JNum 4)) 0) by reflexivity.
  split; [exact Hs|]. split; [reflexivity|].
  exact (proj2 (boxesNeededForSft_cover no_s2n (Some (JNum 10)) (Some (JNum 4))) Hs).
Defined.

Lemma computeBoxes_cover_witness :
  0 < Utils.toNumber no_s2n (Some (JNum 4)) 0 /\
  prop (computeBoxesPiecesSftFromRequiredSft no_s2n (Some (JNum 10)) (Some (JNum 4)) (Some (JNum 6)))
       "leftoverSft" = Some (JNum (Utils.roundTo 2)).
Proof.
  assert (Hs : 0 < Utils.toNumber no_s2n (Some (JNum 4)) 0) by reflexivity.
  split; [exact Hs|].
  destruct (proj2 (proj2 (computeBoxes_cover no_s2n (Some (JNum 10)) (Some (JNum 4))
                            (Some (JNum 6)))) Hs) as [(x & _ & _ & Hx & Hl) _].
  rewrite Hl. rewrite (roundTo_Qeq x 2); [reflexivity|].
  rewrite <- Hx. reflexivity.
Defined.

Lemma whitespace_unit_not_convertible_witness :
  Utils.normalizeUnitName (Some (String (ascii_of_nat 160) (String (ascii_of_nat 9) "")))
    = "" /\
  Utils.convertUnits no_s2n (Some (JNum 5)) (Some "box")
    (Some (String (ascii_of_nat 160) (String (ascii_of_nat 9) "")))
    (Some (JNum 10)) (Some (JNum 2)) = None.
Proof.
  assert (Hne : String (ascii_of_nat 160) (String (ascii_of_nat 9) "") <> "") by discriminate.
  destruct (whitespace_unit_not_convertible no_s2n
              (String (ascii_of_nat 160) (String (ascii_of_nat 9) "")) Hne eq_refl)
    as [Hn Hc].
  split; [exact Hn|]. apply Hc. vm_compute. discriminate.
Defined.

End Witnesses.
